(** * Lago front-end console: the decision logic of its pages

    The pages of the console are React components.  What they decide
    (which value a checkbox shows, which page is fetched next, which
    buttons are rendered, where a callback navigates) is embedded here as
    functions of the values the components read: query results, form
    values and the functions handed out by hooks.  JavaScript objects
    used as dictionaries are property lists in [Object.keys] order on the
    input side and [gmap]s where the code builds them by key. *)

From stdpp Require Import base option list gmap strings.
From Stdlib Require Import ZArith Ascii DecimalString.

Local Open Scope string_scope.
Local Open Scope list_scope.

(** ** JavaScript objects read as dictionaries *)

Module Js.
(** The own enumerable properties of an object, in the order
    [Object.keys] lists them.  Keys are pairwise distinct
    ([wf] below); [Object.keys(o).forEach(k => ... o[k] ...)] visits
    the entries of this list from left to right. *)
Definition Obj (A : Type) : Type := list (string * A).

Definition keys {A} (o : Obj A) : list string := o.*1.

Definition wf {A} (o : Obj A) : Prop := NoDup (keys o).
End Js.

(** ** Schemas of the validation library

    The credit-note form declares its validation with yup.  A schema is
    kept as the expression that builds it; how the library judges a value
    is a parameter of the properties below, and [stringAccepts] is the
    rule used to instantiate it. *)

Module Yup.

(** A [string()] schema; [required] holds the message once
    [.required(message)] was applied. *)
Record StringSchema : Type := {
  required : option string;
}.

Definition string_ : StringSchema := {| required := None |}.

Definition withRequired (message : string) (s : StringSchema) : StringSchema :=
  {| required := Some message |}.

(** A required string rejects [undefined] and the empty string. *)
Definition stringAccepts (s : StringSchema) (value : option string) : bool :=
  match required s, value with
  | Some _, None => false
  | Some _, Some v => negb (String.eqb v "")
  | None, _ => true
  end.

End Yup.

(** ** CreateCreditNote (credit-note creation form) *)

Module CreateCreditNote.

(** [boolean | undefined | null], the values a tri-state checkbox
    takes. *)
Inductive CheckboxValue : Type :=
| Null
| Undefined
| Bool (b : bool).

#[global] Instance CheckboxValue_eq_dec : EqDecision CheckboxValue.
Proof. solve_decision. Defined.

(** [determineCheckboxValue]: the second argument is typed
    [boolean | undefined] but receives [null] through a cast at its
    second call site in [checkboxGroupValue], so both arguments range
    over the three kinds of value; [!==] is strict inequality. *)
Definition determineCheckboxValue
    (initialValue additionnalValue : CheckboxValue) : CheckboxValue :=
  match initialValue, additionnalValue with
  | Undefined, _ | _, Undefined => Undefined
  | Null, _ => additionnalValue
  | _, _ =>
      if decide (initialValue ≠ additionnalValue) then Undefined
      else additionnalValue
  end.

(** [FromFee]: a fee line of the form; [checked] is [None] when the
    property is undefined. *)
Record FromFee : Type := {
  feeId : string;
  checked : option bool;
}.

(** [GroupedFee]: fees of one charge, keyed by fee id. *)
Record GroupedFee : Type := {
  groupName : string;
  grouped : Js.Obj FromFee;
}.

(** [FromFee | GroupedFee], the entries of a subscription's [fees]. *)
Inductive FeeEntry : Type :=
| Fee (f : FromFee)
| Group (g : GroupedFee).

Record SubscriptionFees : Type := {
  subscriptionName : string;
  fees : Js.Obj FeeEntry;
}.

Definition FeesPerInvoice : Type := Js.Obj SubscriptionFees.

(** [child?.checked] on an entry read as a [FromFee]. *)
Definition childChecked (child : FeeEntry) : option bool :=
  match child with
  | Fee f => checked f
  | Group _ => None
  end.

(** [(child as GroupedFee)?.grouped]. *)
Definition childGrouped (child : FeeEntry) : option (Js.Obj FromFee) :=
  match child with
  | Fee _ => None
  | Group g => Some (grouped g)
  end.

(** A [checked] property as the value passed to
    [determineCheckboxValue]. *)
Definition ofChecked (c : option bool) : CheckboxValue :=
  match c with
  | Some b => Bool b
  | None => Undefined
  end.

(** The inner [forEach] over [Object.keys(grouped || {})]. *)
Definition groupValueOf (grouped : option (Js.Obj FromFee)) : CheckboxValue :=
  foldl
    (λ groupValue '(_, feeValues),
       determineCheckboxValue groupValue (ofChecked (checked feeValues)))
    Null
    (default [] grouped).

(** [subscriptionGroupValues.value]. *)
Definition valueOf (subscriptionGroupValues : gmap string CheckboxValue)
    : CheckboxValue :=
  default Undefined (subscriptionGroupValues !! "value").

(** One round of the [forEach] over [Object.keys(subscriptionValues.fees)]:
    the object literal spreads the previous [subscriptionGroupValues]
    and then writes [childKey] (group entries only) and [value]. *)
Definition childStep (subscriptionGroupValues : gmap string CheckboxValue)
    (entry : string * FeeEntry) : gmap string CheckboxValue :=
  let '(childKey, child) := entry in
  match childChecked child with
  | Some b =>
      <["value" :=
          determineCheckboxValue (valueOf subscriptionGroupValues) (Bool b)]>
        subscriptionGroupValues
  | None =>
      let groupValue := groupValueOf (childGrouped child) in
      <["value" :=
          determineCheckboxValue (valueOf subscriptionGroupValues) groupValue]>
        (<[childKey := groupValue]> subscriptionGroupValues)
  end.

Definition subscriptionGroupValuesOf (subscriptionValues : SubscriptionFees)
    : gmap string CheckboxValue :=
  foldl childStep {["value" := Null]} (fees subscriptionValues).

(** The [useMemo] body; [values_fees] is [formikProps.values.fees]. *)
Definition checkboxGroupValue (values_fees : option FeesPerInvoice)
    : gmap string (gmap string CheckboxValue) :=
  foldl
    (λ acc '(subscriptionKey, subscriptionValues),
       <[subscriptionKey := subscriptionGroupValuesOf subscriptionValues]> acc)
    ∅
    (default [] values_fees).

(** [_get(checkboxGroupValue, `${subKey}.value`)], the value handed to
    the subscription's checkbox (subscription keys are ids and hold no
    path separator). *)
Definition groupCheckboxValue (values_fees : option FeesPerInvoice)
    (subKey : string) : CheckboxValue :=
  default Undefined (checkboxGroupValue values_fees !! subKey ≫= (.!! "value")).

(** A run of [checked] flags combined into an accumulator, from left to
    right. *)
Definition foldFlags (acc : CheckboxValue) (flags : list (option bool))
    : CheckboxValue :=
  foldl (λ v c, determineCheckboxValue v (ofChecked c)) acc flags.

(** What one entry of [fees] contributes to the subscription's value:
    its flag, or the value of its group. *)
Definition entryValue (child : FeeEntry) : CheckboxValue :=
  match childChecked child with
  | Some b => Bool b
  | None => groupValueOf (childGrouped child)
  end.

(** The [checked] flags of the leaf fees under one entry, and under a
    subscription, in enumeration order. *)
Definition entryLeaves (child : FeeEntry) : list (option bool) :=
  match child with
  | Fee f => [checked f]
  | Group g => (λ kv, checked kv.2) <$> grouped g
  end.

Definition leafFlags (subscriptionValues : SubscriptionFees)
    : list (option bool) :=
  fees subscriptionValues ≫= (λ kv, entryLeaves kv.2).

(** A populated entry: a direct fee that carries a boolean flag, or a
    group that holds at least one fee. *)
Definition entryPopulated (child : FeeEntry) : Prop :=
  match child with
  | Fee f => is_Some (checked f)
  | Group g => grouped g ≠ []
  end.

Definition populated (subscriptionValues : SubscriptionFees) : Prop :=
  Forall (λ kv, entryPopulated kv.2) (fees subscriptionValues).

(** *** Payment status badge *)

Inductive InvoicePaymentStatusTypeEnum : Type :=
| Failed
| Pending
| Succeeded.

Module StatusType.
Inductive t : Type :=
| success
| default
| warning
| danger.
End StatusType.

Record StatusProps : Type := {
  type : StatusType.t;
  label : string;
}.

(** [mapStatus]; [None] is a call without argument or with
    [undefined]. *)
Definition mapStatus (type : option InvoicePaymentStatusTypeEnum) : StatusProps :=
  match type with
  | Some Succeeded => {| type := StatusType.success; label := "succeeded" |}
  | Some Pending => {| type := StatusType.default; label := "pending" |}
  | _ => {| type := StatusType.warning; label := "failed" |}
  end.

(** *** Validation and the submit button *)

Inductive CreditTypeEnum : Type :=
| credit
| refund.

Record PayBack : Type := {
  payBackType : option CreditTypeEnum;
  payBackValue : option Z;
}.

(** [Partial<CreditNoteForm>], the values Formik holds; [reason] is the
    raw value of the combo box. *)
Record CreditNoteForm : Type := {
  description : option string;
  reason : option string;
  formFees : option FeesPerInvoice;
  addOnFee : option (list FromFee);
  creditFee : option (list FromFee);
  payBack : list PayBack;
}.

(** The schemas the component receives ready-made: those built by
    [generateFeesSchema], [generateAddOnFeesSchema] and
    [generateCreditFeesSchema], and the [payBackValidation] state; each
    is read as the set of values it accepts. *)
Record FieldSchemas : Type := {
  feesValidation : option FeesPerInvoice → bool;
  addOnFeesValidation : option (list FromFee) → bool;
  creditFeeValidation : option (list FromFee) → bool;
  payBackValidation : list PayBack → bool;
}.

(** [object().shape({ reason, fees, addOnFee, creditFee, payBack })]. *)
Record ValidationSchema : Type := {
  shape_reason : Yup.StringSchema;
  shape_fees : option FeesPerInvoice → bool;
  shape_addOnFee : option (list FromFee) → bool;
  shape_creditFee : option (list FromFee) → bool;
  shape_payBack : list PayBack → bool;
}.

Definition validationSchema (s : FieldSchemas) : ValidationSchema :=
  {| shape_reason := Yup.withRequired "" Yup.string_;
     shape_fees := feesValidation s;
     shape_addOnFee := addOnFeesValidation s;
     shape_creditFee := creditFeeValidation s;
     shape_payBack := payBackValidation s |}.

(** An object schema accepts the values every field schema accepts;
    [stringAccepts] is the library's verdict on a string schema. *)
Definition schemaAccepts (stringAccepts : Yup.StringSchema → option string → bool)
    (schema : ValidationSchema) (values : CreditNoteForm) : bool :=
  stringAccepts (shape_reason schema) (reason values)
  && shape_fees schema (formFees values)
  && shape_addOnFee schema (addOnFee values)
  && shape_creditFee schema (creditFee values)
  && shape_payBack schema (payBack values).

(** What the component reads of [formikProps]. *)
Record FormikProps : Type := {
  values : CreditNoteForm;
  isValid : bool;
}.

(** Formik has validated the current values against the schema:
    [isValid] is the schema's verdict on them.  This is a condition on a
    form state, not a fact about every state: until the validation
    started on mount has answered, Formik holds no error and reports
    [isValid = true] whatever the values are. *)
Definition validated (stringAccepts : Yup.StringSchema → option string → bool)
    (schema : ValidationSchema) (formikProps : FormikProps) : Prop :=
  isValid formikProps = schemaAccepts stringAccepts schema (values formikProps).

Inductive FormAction : Type :=
| submitForm.

Record ButtonProps : Type := {
  disabled : bool;
  onClick : FormAction;
}.

(** The submit button of the loaded form. *)
Definition submitButton (formikProps : FormikProps) : ButtonProps :=
  {| disabled := negb (isValid formikProps); onClick := submitForm |}.

(** A button that hands a click to [onClick] unless it is disabled. *)
Definition clickButton (button : ButtonProps) : list FormAction :=
  if disabled button then [] else [onClick button].

(** A subscription with a direct fee and a group of two fees, all
    checked. *)
Definition sampleSubscription : SubscriptionFees :=
  {| subscriptionName := "Premium";
     fees :=
       [("fee_1", Fee {| feeId := "fee_1"; checked := Some true |});
        ("charge_1",
         Group {| groupName := "Storage";
                  grouped :=
                    [("fee_2", {| feeId := "fee_2"; checked := Some true |});
                     ("fee_3", {| feeId := "fee_3"; checked := Some true |})] |})] |}.

Definition sampleFees : FeesPerInvoice := [("sub_1", sampleSubscription)].

(** Field schemas that accept everything, and the form with no reason
    chosen yet, once its validation has answered. *)
Definition permissiveSchemas : FieldSchemas :=
  {| feesValidation := λ _, true;
     addOnFeesValidation := λ _, true;
     creditFeeValidation := λ _, true;
     payBackValidation := λ _, true |}.

Definition initialFormik : FormikProps :=
  {| values :=
       {| description := None;
          reason := None;
          formFees := Some sampleFees;
          addOnFee := None;
          creditFee := None;
          payBack := [{| payBackType := None; payBackValue := None |}] |};
     isValid := false |}.

(** The same form right after mount, before the validation started by
    [validateOnMount] has answered: no error yet, [isValid] is true. *)
Definition mountedFormik : FormikProps :=
  {| values := values initialFormik; isValid := true |}.

End CreateCreditNote.

(** ** Values shared by the pages *)

Module Graphql.

(** [CollectionMetadata] of a paginated query. *)
Record CollectionMetadata : Type := {
  currentPage : Z;
  totalPages : Z;
}.

(** [const { currentPage = 0, totalPages = 0 } = metadata || {}]: the
    two numbers an [onBottom] handler works with. *)
Definition pages (metadata : option CollectionMetadata) : Z * Z :=
  (default 0%Z (currentPage <$> metadata), default 0%Z (totalPages <$> metadata)).

End Graphql.

Module Router.

Inductive Route : Type :=
| INTEGRATIONS_ROUTE
| MONEYHASH_INTEGRATION_ROUTE.

Inductive IntegrationsTabsOptionsEnum : Type :=
| Community
| Lago.

(** [generatePath(route, { integrationGroup })]. *)
Record Path : Type := generatePath {
  route : Route;
  integrationGroup : IntegrationsTabsOptionsEnum;
}.

(** A call of [navigate]. *)
Inductive Navigation : Type :=
| navigate (to : Path).

End Router.

Module Permissions.

(** The permissions the pages below ask for. *)
Inductive Permission : Type :=
| organizationIntegrationsCreate
| organizationIntegrationsUpdate
| organizationIntegrationsDelete
| walletsCreate
| walletsTopUp
| walletsUpdate
| walletsTerminate.

#[global] Instance Permission_eq_dec : EqDecision Permission.
Proof. solve_decision. Defined.

(** The type of [hasPermissions], the function [usePermissions] hands
    to a page. *)
Definition HasPermissions : Type := list Permission → bool.

(** A membership that grants a list when it holds every permission of
    the list. *)
Definition grantsAll (held : Permission → bool) : HasPermissions :=
  λ permissionsToCheck, forallb held permissionsToCheck.

(** A member who may only update integrations. *)
Definition integrationsEditor (p : Permission) : bool :=
  bool_decide (p = organizationIntegrationsUpdate).

End Permissions.

Module Ui.

(** What a page puts on screen for its actions: a button, or a popper
    whose menu holds buttons; each button is given by what its [onClick]
    does.  [cond && <X />] renders [X] or nothing. *)
Inductive Element (A : Type) : Type :=
| Button (onClick : A)
| Popper (menu : list A).
Arguments Button {A} onClick.
Arguments Popper {A} menu.

Definition when {A} (cond : bool) (x : A) : list A :=
  if cond then [x] else [].

(** The [onClick] handlers reachable in a list of elements. *)
Definition handlers {A} (elements : list (Element A)) : list A :=
  elements ≫= (λ e, match e with Button a => [a] | Popper menu => menu end).

End Ui.

(** ** WebhookLogs (developers / webhook logs page) *)

Module WebhookLogs.
Import Graphql.

Record WebhookLogFragment : Type := {
  logId : string;
  createdAt : string;
  endpoint : string;
}.

#[global] Instance WebhookLogFragment_eq_dec : EqDecision WebhookLogFragment.
Proof. solve_decision. Defined.

Record WebhookCollection : Type := {
  metadata : CollectionMetadata;
  collection : list WebhookLogFragment;
}.

(** The result of [getWebhookLog]; [data] itself is [None] until a
    result arrived. *)
Record GetWebhookLogQuery : Type := {
  webhooks : option WebhookCollection;
}.

(** [data?.webhooks?.collection] and [data?.webhooks?.metadata]. *)
Definition data_collection (data : option GetWebhookLogQuery)
    : option (list WebhookLogFragment) :=
  collection <$> (data ≫= webhooks).

Definition data_metadata (data : option GetWebhookLogQuery)
    : option CollectionMetadata :=
  metadata <$> (data ≫= webhooks).

(** [!!data?.webhooks?.collection?.length]. *)
Definition hasLogs (data : option GetWebhookLogQuery) : bool :=
  match data_collection data with
  | Some (_ :: _) => true
  | _ => false
  end.

(** [groupedLogs]: the reducer appends each item to the array stored
    under its formatted date.  [formatTimeOrgaTZ] comes from
    [useOrganizationInfos]. *)
Definition groupedLogs (formatTimeOrgaTZ : string → string)
    (data : option GetWebhookLogQuery) : gmap string (list WebhookLogFragment) :=
  foldl
    (λ acc item,
       let date := formatTimeOrgaTZ (createdAt item) in
       <[date := default [] (acc !! date) ++ [item]]> acc)
    ∅
    (default [] (data_collection data)).

(** The state the page keeps and the calls its handlers make. *)
Record State : Type := {
  selectedLogId : option string;
  fetchMoreLoading : bool;
}.

Inductive Effect : Type :=
| setSelectedLogId (id : option string)
| setFetchMoreLoading (loading : bool)
| fetchMore (page : Z).

Definition perform (st : State) (e : Effect) : State :=
  match e with
  | setSelectedLogId id =>
      {| selectedLogId := id; fetchMoreLoading := fetchMoreLoading st |}
  | setFetchMoreLoading loading =>
      {| selectedLogId := selectedLogId st; fetchMoreLoading := loading |}
  | fetchMore _ => st
  end.

(** The [useEffect] that runs when [hasLogs] or the collection
    changes. *)
Definition selectFirstLog (data : option GetWebhookLogQuery) : list Effect :=
  if hasLogs data
  then [setSelectedLogId (logId <$> (data_collection data ≫= head))]
  else [setSelectedLogId None].

(** [onBottom] of the infinite scroll; [isLoading] comes from
    [useDebouncedSearch]. *)
Definition onBottom (data : option GetWebhookLogQuery) (isLoading : bool)
    : list Effect :=
  let '(currentPage, totalPages) := pages (data_metadata data) in
  if (currentPage <? totalPages)%Z && negb isLoading
  then [setFetchMoreLoading true;
        fetchMore (currentPage + 1)%Z;
        setFetchMoreLoading false]
  else [].

(** What happens on the page: a new query result arrives (the effect
    above runs), a log is clicked or reached with the keyboard, the list
    is scrolled to its end. *)
Inductive Event : Type :=
| DataUpdated (data : option GetWebhookLogQuery)
| LogClicked (id : string)
| KeyNavigated (id : string)
| ScrolledToBottom (data : option GetWebhookLogQuery) (isLoading : bool).

Definition handle (ev : Event) : list Effect :=
  match ev with
  | DataUpdated data => selectFirstLog data
  | LogClicked id => [setSelectedLogId (Some id)]
  | KeyNavigated id => [setSelectedLogId (Some id)]
  | ScrolledToBottom data isLoading => onBottom data isLoading
  end.

Definition step (st : State) (ev : Event) : State :=
  foldl perform st (handle ev).

End WebhookLogs.

(** ** CustomerWalletsList (wallets of a customer) *)

Module CustomerWalletsList.
Import Graphql Permissions Ui.

Inductive WalletStatusEnum : Type :=
| Active
| Terminated.

Record Wallet : Type := {
  walletId : string;
  status : WalletStatusEnum;
  creditsBalance : Z;
}.

Record WalletCollection : Type := {
  metadata : CollectionMetadata;
  collection : list Wallet;
}.

Record GetCustomerWalletListQuery : Type := {
  wallets : option WalletCollection;
}.

(** [data?.wallets?.collection || []]. *)
Definition list_ (data : option GetCustomerWalletListQuery) : list Wallet :=
  default [] (collection <$> (data ≫= wallets)).

(** [list.find((wallet) => wallet.status === WalletStatusEnum.Active)]. *)
Definition activeWallet (data : option GetCustomerWalletListQuery) : option Wallet :=
  List.find (λ wallet, match status wallet with Active => true | _ => false end)
    (list_ data).

Inductive Effect : Type :=
| fetchMore (page : Z).

(** [onBottom] of the infinite scroll; [loading] is the flag of the
    query hook. *)
Definition onBottom (data : option GetCustomerWalletListQuery) (loading : bool)
    : list Effect :=
  let '(currentPage, totalPages) := pages (metadata <$> (data ≫= wallets)) in
  if (currentPage <? totalPages)%Z && negb loading
  then [fetchMore (currentPage + 1)%Z]
  else [].

Inductive Action : Type :=
| createWallet
| topUpWallet
| editWallet
| voidWallet
| terminateWallet.

Definition hasAnyPermissionsToShowActions (hasPermissions : HasPermissions) : bool :=
  hasPermissions [walletsCreate; walletsTopUp; walletsUpdate; walletsTerminate].

(** The [customAction] of the section title. *)
Definition customAction (hasPermissions : HasPermissions)
    (data : option GetCustomerWalletListQuery) : list (Element Action) :=
  when (hasAnyPermissionsToShowActions hasPermissions)
    (if negb (bool_decide (is_Some (activeWallet data)))
        && hasPermissions [walletsCreate]
     then Button createWallet
     else Popper
            (when (hasPermissions [walletsTopUp]) topUpWallet
             ++ when (hasPermissions [walletsUpdate]) editWallet
             ++ (if hasPermissions [walletsTerminate]
                 then [voidWallet; terminateWallet] else []))).

End CustomerWalletsList.

(** ** PlanDetailsChargesSection (charges of a plan) *)

Module PlanDetailsChargesSection.

Record BillableMetric : Type := {
  recurring : bool;
  metricName : string;
  code : string;
}.

#[global] Instance BillableMetric_eq_dec : EqDecision BillableMetric.
Proof. solve_decision. Defined.

Record Charge : Type := {
  chargeId : string;
  billableMetric : BillableMetric;
  invoiceDisplayName : option string;
}.

#[global] Instance Charge_eq_dec : EqDecision Charge.
Proof. solve_decision. Defined.

(** [EditPlanFragment], as far as the section reads it. *)
Record EditPlanFragment : Type := {
  charges : option (list Charge);
}.

(** The accumulator of the [reduce]: two arrays grown by [push]. *)
Record Accumulator : Type := {
  acc_meteredCharges : list Charge;
  acc_recurringCharges : list Charge;
}.

Definition pushCharge (acc : Accumulator) (charge : Charge) : Accumulator :=
  if negb (recurring (billableMetric charge))
  then {| acc_meteredCharges := acc_meteredCharges acc ++ [charge];
          acc_recurringCharges := acc_recurringCharges acc |}
  else {| acc_meteredCharges := acc_meteredCharges acc;
          acc_recurringCharges := acc_recurringCharges acc ++ [charge] |}.

(** What the destructuring yields; a list is [None] when the property
    is undefined. *)
Record ChargeLists : Type := {
  meteredCharges : option (list Charge);
  recurringCharges : option (list Charge);
}.

(** [plan?.charges?.reduce(...) ?? {}]. *)
Definition splitCharges (plan : option EditPlanFragment) : ChargeLists :=
  match plan ≫= charges with
  | Some cs =>
      let acc :=
        foldl pushCharge
          {| acc_meteredCharges := []; acc_recurringCharges := [] |} cs in
      {| meteredCharges := Some (acc_meteredCharges acc);
         recurringCharges := Some (acc_recurringCharges acc) |}
  | None => {| meteredCharges := None; recurringCharges := None |}
  end.

End PlanDetailsChargesSection.

(** ** Integration dialogs opened from the settings pages *)

Module IntegrationDialogs.
Import Router.

(** A Moneyhash provider or a Netsuite integration, as listed. *)
Record Connection : Type := {
  connectionId : string;
  name : string;
  code : string;
}.

(** A post-delete callback, given by the navigation it performs when
    it is called. *)
Definition Callback : Type := list Navigation.

(** Arguments of [openDialog] on the add/edit dialog and on the delete
    dialog. *)
Record AddDialogArgs : Type := {
  add_provider : option Connection;
  deleteDialogCallback : option Callback;
}.

Record DeleteDialogArgs : Type := {
  provider : option Connection;
  callback : option Callback;
}.

(** What a click on a button of these pages does: open the add dialog
    (without arguments to create, with a provider to edit) or the delete
    dialog. *)
Inductive Click : Type :=
| addDialog_openDialog (args : option AddDialogArgs)
| deleteDialog_openDialog (args : DeleteDialogArgs).

Definition isCreate (c : Click) : Prop := c = addDialog_openDialog None.

Definition isEdit (c : Click) : Prop :=
  ∃ args, c = addDialog_openDialog (Some args).

Definition isDelete (c : Click) : Prop :=
  ∃ args, c = deleteDialog_openDialog args.

End IntegrationDialogs.

(** ** MoneyhashIntegrationDetails (one Moneyhash connection) *)

Module MoneyhashIntegrationDetails.
Import Router Permissions Ui IntegrationDialogs.

Definition PROVIDER_CONNECTION_LIMIT : Z := 2.

Inductive ProviderTypeEnum : Type :=
| Moneyhash.

Record QueryVariables : Type := {
  variables_id : string;
  variables_limit : Z;
  variables_type : ProviderTypeEnum;
}.

(** The variables of [useGetMoneyhashIntegrationsDetailsQuery]. *)
Definition queryVariables (integrationId : string) : QueryVariables :=
  {| variables_id := integrationId;
     variables_limit := PROVIDER_CONNECTION_LIMIT;
     variables_type := Moneyhash |}.

Record PaymentProviders : Type := {
  collection : list Connection;
}.

Record GetMoneyhashIntegrationsDetailsQuery : Type := {
  paymentProvider : option Connection;
  paymentProviders : option PaymentProviders;
}.

(** [data?.paymentProviders?.collection.length || 0]. *)
Definition providerCount (data : option GetMoneyhashIntegrationsDetailsQuery) : nat :=
  default 0 (length ∘ collection <$> (data ≫= paymentProviders)).

Definition deleteDialogCallback (data : option GetMoneyhashIntegrationsDetailsQuery)
    : Callback :=
  if (PROVIDER_CONNECTION_LIMIT <=? Z.of_nat (providerCount data))%Z
  then [navigate (generatePath MONEYHASH_INTEGRATION_ROUTE Community)]
  else [navigate (generatePath INTEGRATIONS_ROUTE Community)].

Definition canEditIntegration (hasPermissions : HasPermissions) : bool :=
  hasPermissions [organizationIntegrationsUpdate].

Definition canDeleteIntegration (hasPermissions : HasPermissions) : bool :=
  hasPermissions [organizationIntegrationsDelete].

Definition editClick (data : option GetMoneyhashIntegrationsDetailsQuery) : Click :=
  addDialog_openDialog
    (Some {| add_provider := data ≫= paymentProvider;
             IntegrationDialogs.deleteDialogCallback := Some (deleteDialogCallback data) |}).

Definition deleteClick (data : option GetMoneyhashIntegrationsDetailsQuery) : Click :=
  deleteDialog_openDialog
    {| provider := data ≫= paymentProvider;
       callback := Some (deleteDialogCallback data) |}.

(** The actions menu of the page header. *)
Definition headerActions (hasPermissions : HasPermissions)
    (data : option GetMoneyhashIntegrationsDetailsQuery) : list (Element Click) :=
  when (canEditIntegration hasPermissions || canDeleteIntegration hasPermissions)
    (Popper
       (when (canEditIntegration hasPermissions) (editClick data)
        ++ when (canDeleteIntegration hasPermissions) (deleteClick data))).

(** The edit button next to the section title. *)
Definition sectionActions (hasPermissions : HasPermissions)
    (data : option GetMoneyhashIntegrationsDetailsQuery) : list (Element Click) :=
  when (canEditIntegration hasPermissions) (Button (editClick data)).

Definition render (hasPermissions : HasPermissions)
    (data : option GetMoneyhashIntegrationsDetailsQuery) : list (Element Click) :=
  headerActions hasPermissions data ++ sectionActions hasPermissions data.

End MoneyhashIntegrationDetails.

(** ** MoneyhashIntegrations (list of Moneyhash connections) *)

Module MoneyhashIntegrations.
Import Router Permissions Ui IntegrationDialogs.

Record PaymentProviders : Type := {
  collection : list Connection;
}.

Record GetMoneyhashIntegrationsListQuery : Type := {
  paymentProviders : option PaymentProviders;
}.

(** [data?.paymentProviders?.collection]. *)
Definition connections (data : option GetMoneyhashIntegrationsListQuery)
    : option (list Connection) :=
  collection <$> (data ≫= paymentProviders).

Definition deleteDialogCallback (data : option GetMoneyhashIntegrationsListQuery)
    : option Callback :=
  match connections data with
  | Some cs =>
      if (length cs =? 1)%nat
      then Some [navigate (generatePath INTEGRATIONS_ROUTE Community)]
      else None
  | None => None
  end.

Definition canCreateIntegration (hasPermissions : HasPermissions) : bool :=
  hasPermissions [organizationIntegrationsCreate].

Definition canEditIntegration (hasPermissions : HasPermissions) : bool :=
  hasPermissions [organizationIntegrationsUpdate].

Definition canDeleteIntegration (hasPermissions : HasPermissions) : bool :=
  hasPermissions [organizationIntegrationsDelete].

Definition editClick (data : option GetMoneyhashIntegrationsListQuery)
    (connection : Connection) : Click :=
  addDialog_openDialog
    (Some {| add_provider := Some connection;
             IntegrationDialogs.deleteDialogCallback := deleteDialogCallback data |}).

Definition deleteClick (data : option GetMoneyhashIntegrationsListQuery)
    (connection : Connection) : Click :=
  deleteDialog_openDialog
    {| provider := Some connection; callback := deleteDialogCallback data |}.

(** The create button of the page header. *)
Definition headerActions (hasPermissions : HasPermissions) : list (Element Click) :=
  when (canCreateIntegration hasPermissions) (Button (addDialog_openDialog None)).

(** The menu of one row of the list. *)
Definition rowActions (hasPermissions : HasPermissions)
    (data : option GetMoneyhashIntegrationsListQuery) (connection : Connection)
    : list (Element Click) :=
  when (canEditIntegration hasPermissions || canDeleteIntegration hasPermissions)
    (Popper
       (when (canEditIntegration hasPermissions) (editClick data connection)
        ++ when (canDeleteIntegration hasPermissions) (deleteClick data connection))).

(** [connections?.map(...)], shown once loading is over. *)
Definition listActions (hasPermissions : HasPermissions)
    (data : option GetMoneyhashIntegrationsListQuery) (loading : bool)
    : list (Element Click) :=
  if loading then []
  else default [] (connections data) ≫= rowActions hasPermissions data.

Definition render (hasPermissions : HasPermissions)
    (data : option GetMoneyhashIntegrationsListQuery) (loading : bool)
    : list (Element Click) :=
  headerActions hasPermissions ++ listActions hasPermissions data loading.

End MoneyhashIntegrations.

(** ** NetsuiteIntegrations (list of Netsuite connections) *)

Module NetsuiteIntegrations.
Import Router Ui IntegrationDialogs.

Record Integrations : Type := {
  collection : list Connection;
}.

Record GetNetsuiteIntegrationsListQuery : Type := {
  integrations : option Integrations;
}.

(** [data?.integrations?.collection]. *)
Definition connections (data : option GetNetsuiteIntegrationsListQuery)
    : option (list Connection) :=
  collection <$> (data ≫= integrations).

Definition deleteDialogCallback (data : option GetNetsuiteIntegrationsListQuery)
    : option Callback :=
  match connections data with
  | Some cs =>
      if (length cs =? 1)%nat
      then Some [navigate (generatePath INTEGRATIONS_ROUTE Lago)]
      else None
  | None => None
  end.

Definition editClick (data : option GetNetsuiteIntegrationsListQuery)
    (connection : Connection) : Click :=
  addDialog_openDialog
    (Some {| add_provider := Some connection;
             IntegrationDialogs.deleteDialogCallback := deleteDialogCallback data |}).

Definition deleteClick (data : option GetNetsuiteIntegrationsListQuery)
    (connection : Connection) : Click :=
  deleteDialog_openDialog
    {| provider := Some connection; callback := deleteDialogCallback data |}.

Definition rowActions (data : option GetNetsuiteIntegrationsListQuery)
    (connection : Connection) : list (Element Click) :=
  [Popper [editClick data connection; deleteClick data connection]].

Definition render (data : option GetNetsuiteIntegrationsListQuery) (loading : bool)
    : list (Element Click) :=
  Button (addDialog_openDialog None)
  :: (if loading then [] else default [] (connections data) ≫= rowActions data).

End NetsuiteIntegrations.

(** ** Objects built property by property *)

Module JsObject.

(** [o[k]] on a property list. *)
Fixpoint lookup {A} (o : Js.Obj A) (k : string) : option A :=
  match o with
  | [] => None
  | (k', v) :: o => if decide (k' = k) then Some v else lookup o k
  end.

(** [o[k] = v]: an existing property keeps its place in the enumeration
    order, a new one is listed last (keys that are not array indices). *)
Fixpoint assign {A} (o : Js.Obj A) (k : string) (v : A) : Js.Obj A :=
  match o with
  | [] => [(k, v)]
  | (k', v') :: o =>
      if decide (k' = k) then (k, v) :: o else (k', v') :: assign o k v
  end.

(** The number a key stands for when it is an array index: the decimal
    writing, without sign or leading zero, of an integer below 2^32 - 1.
    [Object.keys] lists such keys first, by ascending number, and the
    other keys after them in the order they were created. *)
Definition arrayIndex (k : string) : option N :=
  match NilZero.uint_of_string k with
  | Some u =>
      let n := N.of_uint u in
      if String.eqb (NilZero.string_of_uint (N.to_uint n)) k && (n <? 4294967295)%N
      then Some n
      else None
  | None => None
  end.

(** A new array index [n] takes its place among the array indices. *)
Fixpoint insertIndex {A} (n : N) (k : string) (v : A) (o : Js.Obj A) : Js.Obj A :=
  match o with
  | [] => [(k, v)]
  | (k', v') :: rest =>
      match arrayIndex k' with
      | Some n' =>
          if (n' <? n)%N then (k', v') :: insertIndex n k v rest else (k, v) :: o
      | None => (k, v) :: o
      end
  end.

(** [o[k] = v] for any key: an existing property keeps its place, a new
    array index is listed among the array indices, any other new key
    last. *)
Definition put {A} (o : Js.Obj A) (k : string) (v : A) : Js.Obj A :=
  match lookup o k, arrayIndex k with
  | None, Some n => insertIndex n k v o
  | _, _ => assign o k v
  end.

End JsObject.

(** ** WebhookLogs: what the list shows *)

Module WebhookLogsList.
Import WebhookLogs.

(** [groupedLogs] as the object the reducer fills, in the order
    [Object.keys] lists its dates: those that read as array indices
    first, by ascending number, then the others in the order they are
    first met. *)
Definition groupedLogsObject (formatTimeOrgaTZ : string → string)
    (data : option GetWebhookLogQuery) : Js.Obj (list WebhookLogFragment) :=
  foldl
    (λ acc item,
       let date := formatTimeOrgaTZ (createdAt item) in
       JsObject.put acc date (default [] (JsObject.lookup acc date) ++ [item]))
    []
    (default [] (data_collection data)).

(** One [WebhookLogItem] of the list: [index] is the running counter
    that numbers the items for keyboard navigation, [selected] tells
    whether the item is highlighted and its details are shown. *)
Record Item : Type := {
  index : nat;
  log : WebhookLogFragment;
  selected : bool;
}.

(** [Object.keys(groupedLogs).map(logDate => groupedLogs[logDate].map(...))]
    with [index] starting at -1 and incremented before each item. *)
Definition items (formatTimeOrgaTZ : string → string)
    (data : option GetWebhookLogQuery) (st : State) : list Item :=
  imap
    (λ i log,
       {| index := i;
          log := log;
          selected := bool_decide (selectedLogId st = Some (logId log)) |})
    (concat (groupedLogsObject formatTimeOrgaTZ data).*2).

(** The logs whose details panel is open. *)
Definition detailsShown (formatTimeOrgaTZ : string → string)
    (data : option GetWebhookLogQuery) (st : State) : list WebhookLogFragment :=
  log <$> filter (λ item, selected item = true) (items formatTimeOrgaTZ data st).

(** What the page shows below its header: the error placeholder in
    place of everything, or on the left side the empty-state placeholder,
    or the list: a blank date header while the first logs load, the date
    headers, the rows, and skeleton rows while loading. *)
Inductive Body : Type :=
| ErrorPlaceholder
| EmptyPlaceholder
| LogsList (blankHeader : bool) (dates : list string) (rows : list Item)
    (skeletons : bool).

(** [error] tells whether the query reports an error ([!!error]). *)
Definition body (formatTimeOrgaTZ : string → string)
    (data : option GetWebhookLogQuery) (st : State)
    (error loading isLoading : bool) : Body :=
  if error && negb loading && negb isLoading
  then ErrorPlaceholder
  else if negb loading && negb isLoading && negb (hasLogs data)
  then EmptyPlaceholder
  else LogsList (isLoading && negb (fetchMoreLoading st) && negb (hasLogs data))
                (Js.keys (groupedLogsObject formatTimeOrgaTZ data))
                (items formatTimeOrgaTZ data st)
                isLoading.

(** The states the page goes through, with the query result on
    screen: it starts without result and without selection; a new result
    arrives and the selection effect runs; a rendered row is clicked, or
    reached with the keyboard; the list is scrolled to its end. *)
Inductive reachable : option GetWebhookLogQuery → State → Prop :=
| reachable_mount :
    reachable None {| selectedLogId := None; fetchMoreLoading := false |}
| reachable_data data st data' :
    reachable data st →
    reachable data' (step st (DataUpdated data'))
| reachable_click data st row :
    reachable data st →
    row ∈ default [] (data_collection data) →
    reachable data (step st (LogClicked (logId row)))
| reachable_key data st row :
    reachable data st →
    row ∈ default [] (data_collection data) →
    reachable data (step st (KeyNavigated (logId row)))
| reachable_scroll data st isLoading :
    reachable data st →
    reachable data (step st (ScrolledToBottom data isLoading)).

End WebhookLogsList.

(** ** CreateCreditNote: the subscription checkbox and the fee lines *)

Module CreateCreditNoteFees.
Import CreateCreditNote.

(** [{ ...fee, checked: value }]. *)
Definition withChecked (value : bool) (fee : FromFee) : FromFee :=
  {| feeId := feeId fee; checked := Some value |}.

(** The inner [reduce] of the checkbox's [onChange]: every fee of a
    group gets the new flag. *)
Definition toggleGrouped (value : bool) (grouped : Js.Obj FromFee) : Js.Obj FromFee :=
  foldl
    (λ accGroup '(groupKey, fee),
       JsObject.assign accGroup groupKey (withChecked value fee))
    []
    grouped.

(** One entry rewritten by [onChange].  An entry with neither a boolean
    flag nor a [grouped] map only gains an empty [grouped]; it has no
    flag and no grouped fee before and after and is kept as it is. *)
Definition toggleEntry (value : bool) (child : FeeEntry) : FeeEntry :=
  match child with
  | Fee f =>
      match checked f with
      | Some _ => Fee (withChecked value f)
      | None => Fee f
      end
  | Group g =>
      Group {| groupName := groupName g;
               grouped := toggleGrouped value (grouped g) |}
  end.

(** The object [onChange] computes from [childValues] and writes to
    [fees.<subKey>.fees]. *)
Definition toggleAll (value : bool) (childValues : Js.Obj FeeEntry) : Js.Obj FeeEntry :=
  foldl
    (λ acc '(childKey, child), JsObject.assign acc childKey (toggleEntry value child))
    []
    childValues.

(** [setFieldValue(`fees.${subKey}.fees`, newFees)] on the form values. *)
Definition setFees (values_fees : FeesPerInvoice) (subKey : string)
    (newFees : Js.Obj FeeEntry) : FeesPerInvoice :=
  (λ kv,
     if decide (kv.1 = subKey)
     then (kv.1, {| subscriptionName := subscriptionName kv.2; fees := newFees |})
     else kv) <$> values_fees.

(** A key that a property path reads as one step: it holds none of
    the characters [.], [[] and []], at which lodash and Formik split a
    path. *)
Definition plainKey (k : string) : bool :=
  forallb
    (λ c : Ascii.ascii,
       negb (Ascii.eqb c "."%char || Ascii.eqb c "["%char || Ascii.eqb c "]"%char))
    (String.list_ascii_of_string k).

(** What a call of [onChange] does: it writes new form values, or it
    throws, or the paths it builds are split elsewhere than after the
    subscription key, a case that is not followed here. *)
Inductive Change : Type :=
| Written (values_fees : FeesPerInvoice)
| Threw
| PathSplit.

(** [onChange] of a subscription's checkbox.  [childValues] is read with
    [_get(values.fees, `${subKey}.fees`)] and the result written with
    [setFieldValue(`fees.${subKey}.fees`, ...)]: when [subKey] and the
    keys of the form's subscriptions are plain, both paths address the
    property [subKey]; [Object.keys] throws when [childValues] is
    undefined. *)
Definition onChange (values_fees : option FeesPerInvoice) (subKey : string)
    (value : bool) : Change :=
  if plainKey subKey && forallb plainKey (Js.keys (default [] values_fees))
  then
    match values_fees ≫= (λ o, JsObject.lookup o subKey) with
    | Some subscription =>
        Written (setFees (default [] values_fees) subKey
                   (toggleAll value (fees subscription)))
    | None => Threw
    end
  else PathSplit.

(** The [formikKey]s of the fee lines rendered for one entry and for a
    subscription, in order; [None] when [Object.keys(grouped)] throws
    because the entry has neither a boolean flag nor a [grouped] map. *)
Definition entryItems (subKey : string) (entry : string * FeeEntry)
    : option (list string) :=
  let '(groupFeeKey, child) := entry in
  match child with
  | Fee f =>
      match checked f with
      | Some _ => Some ["fees." +:+ subKey +:+ ".fees." +:+ groupFeeKey]
      | None => None
      end
  | Group g =>
      Some ((λ kv, "fees." +:+ subKey +:+ ".fees." +:+ groupFeeKey
                   +:+ ".grouped." +:+ feeId kv.2) <$> grouped g)
  end.

Definition feeItems (subKey : string) (subscription : SubscriptionFees)
    : option (list string) :=
  (λ lines, concat lines) <$> mapM (entryItems subKey) (fees subscription).

(** Property lists without repeated keys, down to the groups. *)
Definition wfEntries (o : Js.Obj FeeEntry) : Prop :=
  Js.wf o
  ∧ Forall (λ kv, match kv.2 with Group g => Js.wf (grouped g) | Fee _ => True end) o.

(** The invoice fields the status badge reads. *)
Record Invoice : Type := {
  paymentStatus : option InvoicePaymentStatusTypeEnum;
  paymentDisputeLostAt : option string;
}.

(** [!!invoice?.paymentDisputeLostAt]. *)
Definition disputeLost (invoice : option Invoice) : bool :=
  match invoice ≫= paymentDisputeLostAt with
  | Some at_ => negb (String.eqb at_ "")
  | None => false
  end.

(** The [Status] shown on the invoice card. *)
Definition statusBadge (invoice : option Invoice) : StatusProps :=
  if disputeLost invoice
  then {| type := StatusType.danger; label := "disputeLost" |}
  else mapStatus (invoice ≫= paymentStatus).

(** Two subscriptions, the second with an unchecked fee. *)
Definition sampleInvoiceFees : FeesPerInvoice :=
  [("sub_1", sampleSubscription);
   ("sub_2",
    {| subscriptionName := "Basic";
       fees := [("fee_4", Fee {| feeId := "fee_4"; checked := Some false |})] |})].

End CreateCreditNoteFees.

(** ** CustomerWalletsList: the void action *)

Module CustomerWalletsActions.
Import CustomerWalletsList.

(** [disabled] of the void button:
    [(activeWallet?.creditsBalance || 0) <= 0]. *)
Definition voidDisabled (data : option GetCustomerWalletListQuery) : bool :=
  (default 0 (creditsBalance <$> activeWallet data) <=? 0)%Z.

(** The [walletId] the edit action puts in [EDIT_WALLET_ROUTE]; [None]
    is [undefined]. *)
Definition editWalletId (data : option GetCustomerWalletListQuery) : option string :=
  walletId <$> activeWallet data.

End CustomerWalletsActions.

(** ** PlanDetailsChargesSection: the taxes of a charge *)

Module PlanChargeTaxes.

Record Tax : Type := {
  taxName : string;
  rate : Z;
}.

(** The value of the taxes entry: a dash or one line per tax. *)
Inductive TaxesValue : Type :=
| Dash
| TaxLines (taxes : list Tax).

(** [!!taxes?.length]. *)
Definition hasLength (taxes : option (list Tax)) : bool :=
  match taxes with
  | Some (_ :: _) => true
  | _ => false
  end.

(** [!!charge?.taxes?.length || !!plan?.taxes?.length
      ? (charge.taxes?.length ? charge.taxes : plan?.taxes)?.map(...) : '-'];
    [None] is the undefined that [?.map] gives on no list. *)
Definition taxesValue (chargeTaxes planTaxes : option (list Tax)) : option TaxesValue :=
  if hasLength chargeTaxes || hasLength planTaxes
  then TaxLines <$> (if hasLength chargeTaxes then chargeTaxes else planTaxes)
  else Some Dash.

End PlanChargeTaxes.

(** ** FiltersPanelItemTypeSwitch (the input of one filter) *)

Module FiltersPanelItemTypeSwitch.

Inductive AvailableFiltersEnum : Type :=
| currency
| customerExternalId
| invoiceType
| issuingDate
| partiallyPaid
| paymentDisputeLost
| paymentOverdue
| paymentStatus
| status
| invoiceNumber
| amount
| creditNoteReason
| creditNoteCreditStatus
| creditNoteRefundStatus
| selfBilled
| customerAccountType.

#[global] Instance AvailableFiltersEnum_eq_dec : EqDecision AvailableFiltersEnum.
Proof. solve_decision. Defined.

(** The input components. *)
Inductive FiltersItem : Type :=
| FiltersItemCurrency
| FiltersItemCustomer
| FiltersItemInvoiceType
| FiltersItemIssuingDate
| FiltersItemPartiallyPaid
| FiltersItemPaymentDisputeLost
| FiltersItemPaymentOverdue
| FiltersItemPaymentStatus
| FiltersItemStatus
| FiltersItemInvoiceNumber
| FiltersItemAmount
| FiltersItemCreditNoteReason
| FiltersItemCreditNoteCreditStatus
| FiltersItemCreditNoteRefundStatus
| FiltersItemSelfBilled.

(** [filterTypeMap]; [None] is the [null] entry. *)
Definition filterTypeMap (filterType : AvailableFiltersEnum) : option FiltersItem :=
  match filterType with
  | currency => Some FiltersItemCurrency
  | customerExternalId => Some FiltersItemCustomer
  | invoiceType => Some FiltersItemInvoiceType
  | issuingDate => Some FiltersItemIssuingDate
  | partiallyPaid => Some FiltersItemPartiallyPaid
  | paymentDisputeLost => Some FiltersItemPaymentDisputeLost
  | paymentOverdue => Some FiltersItemPaymentOverdue
  | paymentStatus => Some FiltersItemPaymentStatus
  | status => Some FiltersItemStatus
  | invoiceNumber => Some FiltersItemInvoiceNumber
  | amount => Some FiltersItemAmount
  | creditNoteReason => Some FiltersItemCreditNoteReason
  | creditNoteCreditStatus => Some FiltersItemCreditNoteCreditStatus
  | creditNoteRefundStatus => Some FiltersItemCreditNoteRefundStatus
  | selfBilled => Some FiltersItemSelfBilled
  | customerAccountType => None
  end.

(** What the switch renders: the dashed placeholder, or a connecting
    word (a translation key) followed by the input. *)
Inductive View : Type :=
| Placeholder
| Labelled (text : string) (input : option FiltersItem).

Definition render (filterType : option AvailableFiltersEnum) : View :=
  match filterType with
  | None => Placeholder
  | Some filterType =>
      Labelled
        (if decide (filterType = issuingDate)
         then "text_66ab42d4ece7e6b7078993e2"
         else "text_66ab42d4ece7e6b7078993d0")
        (filterTypeMap filterType)
  end.

End FiltersPanelItemTypeSwitch.

(** * Properties *)

(** ** The tri-state checkbox of a subscription *)

Section CheckboxGroupValue.
Import CreateCreditNote.

Lemma determine_undefined_l a : determineCheckboxValue Undefined a = Undefined.
Proof. by destruct a. Qed.

Lemma determine_undefined_r a : determineCheckboxValue a Undefined = Undefined.
Proof. by destruct a. Qed.

Lemma determine_null_l a : determineCheckboxValue Null a = a.
Proof. by destruct a. Qed.

Lemma determine_bool b c :
  determineCheckboxValue (Bool b) (Bool c) = if decide (b = c) then Bool c else Undefined.
Proof. by destruct b, c. Qed.

(** Away from [null] the combination is associative. *)
Lemma determine_assoc a b c :
  b ≠ Null → c ≠ Null →
  determineCheckboxValue (determineCheckboxValue a b) c
  = determineCheckboxValue a (determineCheckboxValue b c).
Proof.
  intros Hb Hc.
  destruct a as [| |[]], b as [| |[]], c as [| |[]]; done.
Qed.

Lemma determine_not_null a b :
  b ≠ Null → determineCheckboxValue a b ≠ Null.
Proof. destruct a as [| |[]], b as [| |[]]; done. Qed.

Lemma ofChecked_not_null c : ofChecked c ≠ Null.
Proof. by destruct c. Qed.

Lemma foldFlags_cons acc c flags :
  foldFlags acc (c :: flags) = foldFlags (determineCheckboxValue acc (ofChecked c)) flags.
Proof. reflexivity. Qed.

Lemma foldFlags_undefined flags : foldFlags Undefined flags = Undefined.
Proof.
  induction flags as [|c flags IH]; [done|].
  by rewrite foldFlags_cons, determine_undefined_l.
Qed.

Lemma foldFlags_not_null acc flags :
  acc ≠ Null → foldFlags acc flags ≠ Null.
Proof.
  revert acc. induction flags as [|c flags IH]; intros acc Hacc; [done|].
  rewrite foldFlags_cons. apply IH, determine_not_null, ofChecked_not_null.
Qed.

(** A non-empty run of flags can be folded on its own and combined
    afterwards. *)
Lemma foldFlags_split acc flags :
  flags ≠ [] →
  foldFlags acc flags = determineCheckboxValue acc (foldFlags Null flags).
Proof.
  destruct flags as [|c flags]; [done|intros _].
  rewrite !foldFlags_cons, determine_null_l. revert acc c.
  induction flags as [|d flags IH]; intros acc c; [done|].
  rewrite !foldFlags_cons, (IH _ d), (IH (ofChecked c) d).
  rewrite determine_assoc; [done|apply ofChecked_not_null|].
  apply foldFlags_not_null, ofChecked_not_null.
Qed.

Lemma foldFlags_app acc xs ys :
  foldFlags acc (xs ++ ys) = foldFlags (foldFlags acc xs) ys.
Proof. apply foldl_app. Qed.

Lemma groupValueOf_foldFlags (g : Js.Obj FromFee) :
  groupValueOf (Some g) = foldFlags Null ((λ kv, checked kv.2) <$> g).
Proof.
  unfold groupValueOf, foldFlags. simpl. generalize Null.
  induction g as [|[k f] g IH]; intros acc; [done|]. apply IH.
Qed.

Lemma entryValue_leaves acc child :
  entryPopulated child →
  determineCheckboxValue acc (entryValue child) = foldFlags acc (entryLeaves child).
Proof.
  destruct child as [f|g]; unfold entryValue; simpl.
  - intros [b Hb]. by rewrite Hb.
  - intros Hg. rewrite groupValueOf_foldFlags, <- foldFlags_split; [done|].
    by destruct (grouped g).
Qed.

(** The [value] property after the loop over the entries. *)
Lemma valueOf_childStep sgv entries :
  is_Some (sgv !! "value") →
  valueOf (foldl childStep sgv entries)
  = foldl (λ v kv, determineCheckboxValue v (entryValue kv.2)) (valueOf sgv) entries.
Proof.
  revert sgv. induction entries as [|[k child] entries IH]; intros sgv Hv; [done|].
  simpl. rewrite IH.
  - f_equal. unfold entryValue, valueOf at 1.
    destruct (childChecked child); simpl; by rewrite lookup_insert_eq.
  - destruct (childChecked child); simpl; rewrite lookup_insert_eq; eauto.
Qed.

Lemma entries_leaves acc (entries : Js.Obj FeeEntry) :
  Forall (λ kv, entryPopulated kv.2) entries →
  foldl (λ v kv, determineCheckboxValue v (entryValue kv.2)) acc entries
  = foldFlags acc (entries ≫= (λ kv, entryLeaves kv.2)).
Proof.
  intros Hall. revert acc.
  induction Hall as [|[k child] entries Hc _ IH]; intros acc; [done|].
  simpl. rewrite foldFlags_app, IH. f_equal. by apply entryValue_leaves.
Qed.

Lemma subscription_value sub :
  populated sub →
  valueOf (subscriptionGroupValuesOf sub) = foldFlags Null (leafFlags sub).
Proof.
  intros Hsub. unfold subscriptionGroupValuesOf.
  rewrite valueOf_childStep by (rewrite lookup_singleton_eq; eauto).
  unfold valueOf at 1. rewrite lookup_singleton_eq. by apply entries_leaves.
Qed.

(** The outer [reduce] stores each subscription under its key. *)
Lemma checkboxGroupValue_lookup (values_fees : FeesPerInvoice) subKey sub :
  Js.wf values_fees → (subKey, sub) ∈ values_fees →
  checkboxGroupValue (Some values_fees) !! subKey
  = Some (subscriptionGroupValuesOf sub).
Proof.
  unfold checkboxGroupValue, Js.wf, Js.keys. simpl. generalize (∅ : gmap string (gmap string CheckboxValue)).
  induction values_fees as [|[k v] l IH]; intros acc Hnd Hin.
  - by apply elem_of_nil in Hin.
  - simpl in *. apply NoDup_cons in Hnd as [Hk Hnd].
    apply elem_of_cons in Hin as [Heq|Hin].
    + injection Heq as -> ->. clear IH Hnd.
      assert (∀ acc : gmap string (gmap string CheckboxValue),
        foldl (λ acc '(subscriptionKey, subscriptionValues),
                 <[subscriptionKey := subscriptionGroupValuesOf subscriptionValues]> acc) acc l !! k
        = acc !! k) as Hfresh.
      { induction l as [|[k' v'] l IHl]; intros acc'; [done|].
        simpl in *. apply not_elem_of_cons in Hk as [Hne Hk].
        rewrite IHl by done. by rewrite lookup_insert_ne. }
      by rewrite Hfresh, lookup_insert_eq.
    + by apply IH.
Qed.

Lemma foldFlags_bool b b' flags :
  foldFlags (Bool b) flags = Bool b' ↔ b = b' ∧ ∀ c, c ∈ flags → c = Some b'.
Proof.
  induction flags as [|c flags IH].
  - simpl. split; [intros [= ->]; split; [done|by intros ? ?%elem_of_nil]|by intros [-> _]].
  - rewrite foldFlags_cons. destruct c as [c|]; unfold ofChecked.
    + rewrite determine_bool. case_decide as Hbc.
      * subst c. rewrite IH. split; intros [-> H]; split; try done.
        -- intros c [->|Hc]%elem_of_cons; auto.
        -- intros c Hc. apply H. by right.
      * rewrite foldFlags_undefined. split; [done|]. intros [-> H].
        destruct Hbc. specialize (H (Some c) ltac:(by left)). by injection H.
    + rewrite determine_undefined_r, foldFlags_undefined. split; [done|].
      intros [_ H]. by specialize (H None ltac:(by left)).
Qed.

Lemma foldFlags_bool_undefined b flags :
  foldFlags (Bool b) flags = Undefined ↔ ∃ c, c ∈ flags ∧ c ≠ Some b.
Proof.
  induction flags as [|c flags IH].
  - split; [done|]. by intros (c & ?%elem_of_nil & _).
  - rewrite foldFlags_cons. destruct c as [c|]; unfold ofChecked.
    + rewrite determine_bool. case_decide as Hbc.
      * subst c. rewrite IH. split; intros (c & Hc & Hne); exists c; split; try done.
        -- by right.
        -- by apply elem_of_cons in Hc as [->|Hc].
      * rewrite foldFlags_undefined. split; [intros _|done].
        exists (Some c). split; [by left|congruence].
    + rewrite determine_undefined_r, foldFlags_undefined. split; [intros _|done].
      exists None. split; [by left|done].
Qed.

Lemma foldFlags_null_bool b flags :
  foldFlags Null flags = Bool b ↔ flags ≠ [] ∧ ∀ c, c ∈ flags → c = Some b.
Proof.
  destruct flags as [|c flags]; [by split; [|intros []]|].
  rewrite foldFlags_cons, determine_null_l. destruct c as [c|]; unfold ofChecked.
  - rewrite foldFlags_bool. split.
    + intros [-> H]. split; [done|]. intros c [->|Hc]%elem_of_cons; auto.
    + intros [_ H]. split.
      * specialize (H (Some c) ltac:(by left)). by injection H.
      * intros c' Hc'. apply H. by right.
  - rewrite foldFlags_undefined. split; [done|].
    intros [_ H]. by specialize (H None ltac:(by left)).
Qed.

Lemma foldFlags_null_null flags : foldFlags Null flags = Null ↔ flags = [].
Proof.
  destruct flags as [|c flags]; [done|]. split; [|done].
  rewrite foldFlags_cons, determine_null_l. intros H.
  by apply foldFlags_not_null in H; [|apply ofChecked_not_null].
Qed.

Lemma foldFlags_null_undefined flags :
  foldFlags Null flags = Undefined
  ↔ None ∈ flags ∨ (Some true ∈ flags ∧ Some false ∈ flags).
Proof.
  destruct flags as [|c flags].
  - split; [done|]. by intros [?%elem_of_nil|[?%elem_of_nil _]].
  - rewrite foldFlags_cons, determine_null_l. destruct c as [b|]; unfold ofChecked.
    + rewrite foldFlags_bool_undefined. split.
      * intros ([c|] & Hc & Hne); [right|left; by right].
        assert (c = negb b) as -> by (destruct c, b; simpl; congruence).
        destruct b; split; first [by left|by right].
      * intros [[?|Hin]%elem_of_cons|[Ht Hf]]; [done|by exists None|].
        exists (Some (negb b)). split; [|by destruct b].
        destruct b; simpl.
        -- by apply elem_of_cons in Hf as [?|?].
        -- by apply elem_of_cons in Ht as [?|?].
    + rewrite foldFlags_undefined. split; [intros _; left; by left|done].
Qed.

End CheckboxGroupValue.

Section CheckboxGroupValueClaim.
Import CreateCreditNote.

(** C1 (as amended).  For a subscription of the form whose direct fees
    carry a boolean flag and whose groups are not empty, the value handed
    to the subscription's checkbox is determined by the [checked] flags
    of its leaf fees (direct ones and those one level inside [grouped]):
    it is the left fold of [determineCheckboxValue] over them seeded with
    [null]; it is [true] exactly when there is at least one leaf and every
    leaf is checked, [false] exactly when there is at least one leaf and
    none is checked, [undefined] exactly when some leaf's flag is
    undefined or two leaves disagree, and stays [null] exactly when there
    is no leaf.  [determineCheckboxValue] sends (undefined, _) and
    (_, undefined) to undefined, (null, b) to b, unequal booleans to
    undefined and equal booleans to that boolean. *)
Theorem checkboxGroupValue_leaves
    (values_fees : FeesPerInvoice) (subKey : string) (sub : SubscriptionFees) :
  Js.wf values_fees →
  (subKey, sub) ∈ values_fees →
  populated sub →
  let v := groupCheckboxValue (Some values_fees) subKey in
  let leaves := leafFlags sub in
  v = foldFlags Null leaves
  ∧ (v = Bool true ↔ leaves ≠ [] ∧ ∀ c, c ∈ leaves → c = Some true)
  ∧ (v = Bool false ↔ leaves ≠ [] ∧ ∀ c, c ∈ leaves → c = Some false)
  ∧ (v = Undefined ↔ None ∈ leaves ∨ (Some true ∈ leaves ∧ Some false ∈ leaves))
  ∧ (v = Null ↔ leaves = [])
  ∧ (∀ a, determineCheckboxValue Undefined a = Undefined)
  ∧ (∀ a, determineCheckboxValue a Undefined = Undefined)
  ∧ (∀ b, determineCheckboxValue Null (Bool b) = Bool b)
  ∧ (∀ b c, b ≠ c → determineCheckboxValue (Bool b) (Bool c) = Undefined)
  ∧ (∀ b, determineCheckboxValue (Bool b) (Bool b) = Bool b).
Proof.
  intros Hwf Hin Hpop v leaves.
  assert (v = foldFlags Null leaves) as Hv.
  { unfold v, groupCheckboxValue.
    rewrite (checkboxGroupValue_lookup _ _ _ Hwf Hin). simpl.
    by apply subscription_value. }
  split; [done|]. rewrite Hv.
  split; [apply foldFlags_null_bool|].
  split; [apply foldFlags_null_bool|].
  split; [apply foldFlags_null_undefined|].
  split; [apply foldFlags_null_null|].
  split; [apply determine_undefined_l|].
  split; [apply determine_undefined_r|].
  split; [intros b; apply determine_null_l|].
  split; [by intros [] []|by intros []].
Qed.

Lemma checkboxGroupValue_leaves_witness :
  Js.wf sampleFees
  ∧ populated sampleSubscription
  ∧ groupCheckboxValue (Some sampleFees) "sub_1" = Bool true.
Proof.
  assert (Js.wf sampleFees) as Hwf by apply NoDup_singleton.
  assert (populated sampleSubscription) as Hpop
    by (repeat constructor; [by eexists|done]).
  split; [done|]. split; [done|].
  destruct (checkboxGroupValue_leaves sampleFees "sub_1" sampleSubscription)
    as (_ & Htrue & _); [done|by left|done|].
  apply Htrue. split; [done|].
  intros c Hc. vm_compute in Hc.
  repeat (apply elem_of_cons in Hc as [->|Hc]; [done|]).
  by apply elem_of_nil in Hc.
Defined.

(** C1 as stated fails on a subscription without fees: every leaf (there
    is none) is checked, yet the value is the seed [null], not [true]. *)
Lemma checkboxGroupValue_no_leaf :
  let sub := {| subscriptionName := "Premium"; fees := [] |} in
  (∀ c, c ∈ leafFlags sub → c = Some true)
  ∧ groupCheckboxValue (Some [("sub_1", sub)]) "sub_1" = Null
  ∧ groupCheckboxValue (Some [("sub_1", sub)]) "sub_1" ≠ Bool true.
Proof.
  split; [by intros c ?%elem_of_nil|]. by vm_compute.
Qed.

(** An empty group is combined as [null]: after a checked fee it turns
    the value into [undefined], before it it leaves no trace, so with
    empty groups the value is no function of the leaves. *)
Lemma checkboxGroupValue_empty_group :
  let fee := Fee {| feeId := "fee_1"; checked := Some true |} in
  let empty := Group {| groupName := "Storage"; grouped := [] |} in
  let after := {| subscriptionName := "Premium"; fees := [("fee_1", fee); ("charge_1", empty)] |} in
  let before := {| subscriptionName := "Premium"; fees := [("charge_1", empty); ("fee_1", fee)] |} in
  leafFlags after = [Some true] ∧ leafFlags before = [Some true]
  ∧ groupCheckboxValue (Some [("sub_1", after)]) "sub_1" = Undefined
  ∧ groupCheckboxValue (Some [("sub_1", before)]) "sub_1" = Bool true.
Proof. by vm_compute. Qed.

End CheckboxGroupValueClaim.

(** ** Payment status badge *)

Section MapStatus.
Import CreateCreditNote.

(** C10.  [mapStatus] returns a badge for every input, present or not:
    success/"succeeded" for Succeeded, default/"pending" for Pending,
    and warning/"failed" for every other input, among them Failed and
    the absent status. *)
Theorem mapStatus_total :
  mapStatus (Some Succeeded) = {| type := StatusType.success; label := "succeeded" |}
  ∧ mapStatus (Some Pending) = {| type := StatusType.default; label := "pending" |}
  ∧ (∀ t, t ≠ Some Succeeded → t ≠ Some Pending →
          mapStatus t = {| type := StatusType.warning; label := "failed" |})
  ∧ mapStatus (Some Failed) = {| type := StatusType.warning; label := "failed" |}
  ∧ mapStatus None = {| type := StatusType.warning; label := "failed" |}
  ∧ (∀ t, ∃ props, mapStatus t = props
          ∧ props ∈ [ {| type := StatusType.success; label := "succeeded" |};
                      {| type := StatusType.default; label := "pending" |};
                      {| type := StatusType.warning; label := "failed" |} ]).
Proof.
  repeat split; try done.
  - by intros [[]|] ??.
  - intros t. exists (mapStatus t). split; [done|].
    destruct t as [[]|]; simpl; set_solver.
Qed.

End MapStatus.

(** ** Submitting the credit-note form *)

Section SubmitButton.
Import CreateCreditNote.

(** [stringAccepts] is the validation library's verdict on a string
    schema and [click] what the design system's button does when it is
    clicked.  Used of them: a required string schema rejects a missing or
    empty value, and a disabled button does not call its handler. *)
Variable stringAccepts : Yup.StringSchema → option string → bool.
Hypothesis required_rejects_missing :
  ∀ schema value,
    is_Some (Yup.required schema) → value = None ∨ value = Some "" →
    stringAccepts schema value = false.
Variable click : ButtonProps → list FormAction.
Hypothesis disabled_ignores_click :
  ∀ button, disabled button = true → click button = [].

Lemma required_reason_missing s values :
  reason values = None ∨ reason values = Some "" →
  schemaAccepts stringAccepts (validationSchema s) values = false.
Proof.
  intros Hreason. unfold schemaAccepts.
  rewrite required_rejects_missing; [done|by eexists|done].
Qed.


End SubmitButton.

Section SubmitButtonWitness.
Import CreateCreditNote.

Lemma stringAccepts_required schema value :
  is_Some (Yup.required schema) → value = None ∨ value = Some "" →
  Yup.stringAccepts schema value = false.
Proof. unfold Yup.stringAccepts. by intros [msg ->] [-> | ->]. Qed.

Lemma clickButton_disabled button :
  disabled button = true → clickButton button = [].
Proof. unfold clickButton. by intros ->. Qed.



End SubmitButtonWitness.

(** ** Metered and recurring charges of a plan *)

Section PlanCharges.
Import PlanDetailsChargesSection.

Lemma foldl_pushCharge acc cs :
  foldl pushCharge acc cs
  = {| acc_meteredCharges :=
         acc_meteredCharges acc
         ++ filter (λ c, recurring (billableMetric c) = false) cs;
       acc_recurringCharges :=
         acc_recurringCharges acc
         ++ filter (λ c, recurring (billableMetric c) = true) cs |}.
Proof.
  revert acc. induction cs as [|c cs IH]; intros acc.
  - simpl. rewrite !filter_nil, !app_nil_r. by destruct acc.
  - simpl. rewrite IH. unfold pushCharge.
    destruct (recurring (billableMetric c)) eqn:Hc; simpl.
    + rewrite (filter_cons_True (λ c, recurring (billableMetric c) = true)) by done.
      rewrite (filter_cons_False (λ c, recurring (billableMetric c) = false)) by congruence.
      by rewrite <- app_assoc.
    + rewrite (filter_cons_True (λ c, recurring (billableMetric c) = false)) by done.
      rewrite (filter_cons_False (λ c, recurring (billableMetric c) = true)) by congruence.
      by rewrite <- app_assoc.
Qed.

(** C3.  For a plan with a charge list the section obtains two lists:
    [meteredCharges] holds exactly the charges whose billable metric is
    not recurring and [recurringCharges] exactly those whose metric is
    recurring, each in the order of the plan's list, and together they
    are a rearrangement of that list; without a plan or without a charge
    list both are undefined. *)
Theorem splitCharges_partition (plan : option EditPlanFragment) :
  (∀ cs, plan ≫= charges = Some cs →
     ∃ metered recurring_,
       meteredCharges (splitCharges plan) = Some metered
       ∧ recurringCharges (splitCharges plan) = Some recurring_
       ∧ metered = filter (λ c, recurring (billableMetric c) = false) cs
       ∧ recurring_ = filter (λ c, recurring (billableMetric c) = true) cs
       ∧ (∀ c, c ∈ metered ↔ c ∈ cs ∧ recurring (billableMetric c) = false)
       ∧ (∀ c, c ∈ recurring_ ↔ c ∈ cs ∧ recurring (billableMetric c) = true)
       ∧ metered `sublist_of` cs
       ∧ recurring_ `sublist_of` cs
       ∧ metered ++ recurring_ ≡ₚ cs)
  ∧ (plan ≫= charges = None →
       meteredCharges (splitCharges plan) = None
       ∧ recurringCharges (splitCharges plan) = None).
Proof.
  split.
  - intros cs Hcs. unfold splitCharges. rewrite Hcs, foldl_pushCharge. simpl.
    eexists _, _. do 4 (split; [done|]).
    split; [|split; [|split; [|split]]].
    + intros c. rewrite list_elem_of_filter. tauto.
    + intros c. rewrite list_elem_of_filter. tauto.
    + apply sublist_filter.
    + apply sublist_filter.
    + rewrite Permutation_app_comm.
      rewrite <- (filter_app_complement (λ c, recurring (billableMetric c) = true) cs) at 3.
      f_equiv. apply reflexive_eq, list_filter_iff.
      intros c. by destruct (recurring (billableMetric c)).
  - intros Hnone. unfold splitCharges. by rewrite Hnone.
Qed.

End PlanCharges.

(** ** Webhook logs: grouping, selection and pagination *)

Section WebhookLogsFacts.
Import Graphql WebhookLogs.
Variable formatTimeOrgaTZ : string → string.

Lemma groupedLogs_lookup data date :
  groupedLogs formatTimeOrgaTZ data !! date
  = let logs :=
      filter (λ log, formatTimeOrgaTZ (createdAt log) = date)
        (default [] (data_collection data)) in
    if decide (logs = []) then None else Some logs.
Proof.
  unfold groupedLogs. generalize (default [] (data_collection data)).
  intros coll. induction coll as [|log coll IH] using rev_ind; [done|].
  rewrite foldl_snoc, filter_app. simpl in *.
  destruct (decide (formatTimeOrgaTZ (createdAt log) = date)) as [Heq|Hne].
  - subst date. rewrite lookup_insert_eq, IH.
    set (P := λ l, formatTimeOrgaTZ (createdAt l) = formatTimeOrgaTZ (createdAt log)).
    assert (filter P [log] = [log]) as -> by (by rewrite filter_cons_True).
    destruct (decide (filter P coll = [])) as [->|Hne]; simpl; [done|].
    rewrite decide_False; [done|]. by destruct (filter P coll).
  - rewrite lookup_insert_ne, IH by done.
    set (P := λ l, formatTimeOrgaTZ (createdAt l) = date).
    assert (filter P [log] = []) as -> by (by rewrite filter_cons_False).
    by rewrite app_nil_r.
Qed.

(** C8.  Every group of [groupedLogs] is non-empty and holds, in the
    order of the fetched collection, exactly the logs whose creation
    time formats to the group's key; so every fetched log is found in the
    group of its formatted creation time and in no other group, and an
    empty or absent collection gives the empty grouping. *)
Theorem groupedLogs_groups (data : option GetWebhookLogQuery) :
  let coll := default [] (data_collection data) in
  let groups := groupedLogs formatTimeOrgaTZ data in
  (∀ date logs, groups !! date = Some logs →
     logs ≠ []
     ∧ logs = filter (λ log, formatTimeOrgaTZ (createdAt log) = date) coll)
  ∧ (∀ log, log ∈ coll →
       ∃ logs, groups !! formatTimeOrgaTZ (createdAt log) = Some logs ∧ log ∈ logs)
  ∧ (∀ date logs log, groups !! date = Some logs → log ∈ logs →
       date = formatTimeOrgaTZ (createdAt log))
  ∧ (data_collection data = None ∨ data_collection data = Some [] → groups = ∅).
Proof.
  intros coll groups.
  assert (∀ date logs, groups !! date = Some logs →
     logs ≠ []
     ∧ logs = filter (λ log, formatTimeOrgaTZ (createdAt log) = date) coll) as Hgroup.
  { intros date logs. unfold groups. rewrite groupedLogs_lookup. simpl.
    case_decide; [done|]. by intros [= <-]. }
  split; [done|]. split; [|split].
  - intros log Hlog. unfold groups. rewrite groupedLogs_lookup. simpl.
    assert (log ∈ filter (λ l, formatTimeOrgaTZ (createdAt l)
                               = formatTimeOrgaTZ (createdAt log)) coll) as Hin
      by (by apply list_elem_of_filter).
    case_decide as Hnil; [|by eexists].
    unfold coll in Hin. rewrite Hnil in Hin. by apply elem_of_nil in Hin.
  - intros date logs log [_ ->]%Hgroup [? _]%list_elem_of_filter. done.
  - intros Hempty. apply map_eq. intros date. unfold groups.
    rewrite groupedLogs_lookup, lookup_empty. by destruct Hempty as [-> | ->].
Qed.

Lemma selection_update_first (st : State) (data : option GetWebhookLogQuery) first more :
  data_collection data = Some (first :: more) →
  selectedLogId (step st (DataUpdated data)) = Some (logId first).
Proof.
  intros Hc. unfold step, handle, selectFirstLog, hasLogs. by rewrite Hc.
Qed.

(** C9.  Once the effect of a data update has run, the selected log is
    the first element of the fetched collection when there is one, and
    no log is selected when the collection is empty or absent. *)
Theorem selection_after_update (st : State) (data : option GetWebhookLogQuery) :
  let st' := step st (DataUpdated data) in
  (∀ log logs, data_collection data = Some (log :: logs) →
     selectedLogId st' = Some (logId log))
  ∧ (data_collection data = Some [] ∨ data_collection data = None →
     selectedLogId st' = None).
Proof.
  unfold step, handle, selectFirstLog, hasLogs. split.
  - intros log logs Hc. by rewrite Hc.
  - by intros [-> | ->].
Qed.

End WebhookLogsFacts.

(** ** Fetching the next page *)

Section Pagination.
Import Graphql.

Lemma pages_absent : pages None = (0%Z, 0%Z).
Proof. reflexivity. Qed.

Lemma webhook_onBottom_cases logs isLoading :
  let l := pages (WebhookLogs.data_metadata logs) in
  WebhookLogs.onBottom logs isLoading
  = if decide ((l.1 < l.2)%Z ∧ isLoading = false)
    then [WebhookLogs.setFetchMoreLoading true;
          WebhookLogs.fetchMore (l.1 + 1)%Z;
          WebhookLogs.setFetchMoreLoading false]
    else [].
Proof.
  unfold WebhookLogs.onBottom.
  destruct (pages (WebhookLogs.data_metadata logs)) as [c t]. simpl.
  destruct (Z.ltb_spec c t), isLoading; simpl; case_decide as Hd; try done;
    first [destruct Hd; lia | destruct Hd; done | destruct Hd; split; [lia|done]].
Qed.

Lemma wallets_onBottom_cases wallets loading :
  let w := pages (CustomerWalletsList.metadata
                    <$> (wallets ≫= CustomerWalletsList.wallets)) in
  CustomerWalletsList.onBottom wallets loading
  = if decide ((w.1 < w.2)%Z ∧ loading = false)
    then [CustomerWalletsList.fetchMore (w.1 + 1)%Z]
    else [].
Proof.
  unfold CustomerWalletsList.onBottom.
  destruct (pages _) as [c t]. simpl.
  destruct (Z.ltb_spec c t), loading; simpl; case_decide as Hd; try done;
    first [destruct Hd; lia | destruct Hd; done | destruct Hd; split; [lia|done]].
Qed.

(** C2.  When the webhook-logs list or the wallets list is scrolled to
    its end, [fetchMore] is called only if [currentPage < totalPages]
    (both read as 0 without metadata) and the page's loading flag is off,
    and then with page [currentPage + 1]; under these conditions it is
    called, once. *)
Theorem onBottom_fetchMore
    (logs : option WebhookLogs.GetWebhookLogQuery) (isLoading : bool)
    (wallets : option CustomerWalletsList.GetCustomerWalletListQuery) (loading : bool) :
  let l := pages (WebhookLogs.data_metadata logs) in
  let w := pages (CustomerWalletsList.metadata
                    <$> (wallets ≫= CustomerWalletsList.wallets)) in
  (∀ page, WebhookLogs.fetchMore page ∈ WebhookLogs.onBottom logs isLoading →
     (l.1 < l.2)%Z ∧ isLoading = false ∧ page = (l.1 + 1)%Z)
  ∧ ((l.2 ≤ l.1)%Z ∨ isLoading = true →
     ∀ page, WebhookLogs.fetchMore page ∉ WebhookLogs.onBottom logs isLoading)
  ∧ ((l.1 < l.2)%Z → isLoading = false →
     WebhookLogs.onBottom logs isLoading
     = [WebhookLogs.setFetchMoreLoading true;
        WebhookLogs.fetchMore (l.1 + 1)%Z;
        WebhookLogs.setFetchMoreLoading false])
  ∧ (WebhookLogs.data_metadata logs = None → l = (0%Z, 0%Z))
  ∧ (∀ page,
       CustomerWalletsList.fetchMore page ∈ CustomerWalletsList.onBottom wallets loading →
       (w.1 < w.2)%Z ∧ loading = false ∧ page = (w.1 + 1)%Z)
  ∧ ((w.2 ≤ w.1)%Z ∨ loading = true →
     ∀ page,
       CustomerWalletsList.fetchMore page ∉ CustomerWalletsList.onBottom wallets loading)
  ∧ ((w.1 < w.2)%Z → loading = false →
     CustomerWalletsList.onBottom wallets loading
     = [CustomerWalletsList.fetchMore (w.1 + 1)%Z])
  ∧ (wallets ≫= CustomerWalletsList.wallets = None → w = (0%Z, 0%Z)).
Proof.
  intros l w.
  rewrite webhook_onBottom_cases, wallets_onBottom_cases. fold l w.
  split; [|split; [|split; [|split; [|split; [|split; [|split]]]]]].
  - intros page. case_decide as Hg; [|by intros ?%elem_of_nil].
    destruct Hg as [? ?].
    intros [?|[[= ->]|[?|?%elem_of_nil]%elem_of_cons]%elem_of_cons]%elem_of_cons; done.
  - intros Hno page. rewrite decide_False; [by intros ?%elem_of_nil|].
    intros [? ?]. destruct Hno as [?|?]; [lia|congruence].
  - intros ? ?. by rewrite decide_True.
  - unfold l. by intros ->.
  - intros page. case_decide as Hg; [|by intros ?%elem_of_nil].
    destruct Hg as [? ?].
    intros [[= ->]|?%elem_of_nil]%elem_of_cons; done.
  - intros Hno page. rewrite decide_False; [by intros ?%elem_of_nil|].
    intros [? ?]. destruct Hno as [?|?]; [lia|congruence].
  - intros ? ?. by rewrite decide_True.
  - unfold w. by intros ->.
Qed.

End Pagination.

(** ** Where the post-delete callbacks lead *)

Section DeleteCallbacks.
Import Router Ui IntegrationDialogs.

(** C4.  On the Moneyhash details page the post-delete callback
    navigates to the Moneyhash integrations route exactly when the query
    (issued with limit [PROVIDER_CONNECTION_LIMIT] = 2) returned at least
    two providers, and to the community integrations route otherwise; an
    absent provider collection counts as zero providers. *)
Theorem details_deleteDialogCallback
    (data : option MoneyhashIntegrationDetails.GetMoneyhashIntegrationsDetailsQuery) :
  let n := MoneyhashIntegrationDetails.providerCount data in
  (MoneyhashIntegrationDetails.deleteDialogCallback data
   = [navigate (generatePath MONEYHASH_INTEGRATION_ROUTE Community)] ↔ (2 ≤ n)%nat)
  ∧ (MoneyhashIntegrationDetails.deleteDialogCallback data
     = [navigate (generatePath INTEGRATIONS_ROUTE Community)] ↔ (n < 2)%nat)
  ∧ (data ≫= MoneyhashIntegrationDetails.paymentProviders = None → n = 0%nat)
  ∧ (∀ pp, data ≫= MoneyhashIntegrationDetails.paymentProviders = Some pp →
       n = length (MoneyhashIntegrationDetails.collection pp))
  ∧ MoneyhashIntegrationDetails.PROVIDER_CONNECTION_LIMIT = 2%Z
  ∧ (∀ integrationId,
       MoneyhashIntegrationDetails.variables_limit
         (MoneyhashIntegrationDetails.queryVariables integrationId)
       = MoneyhashIntegrationDetails.PROVIDER_CONNECTION_LIMIT).
Proof.
  intros n. unfold MoneyhashIntegrationDetails.deleteDialogCallback.
  fold n. unfold MoneyhashIntegrationDetails.PROVIDER_CONNECTION_LIMIT.
  split; [|split; [|split; [|split; [|done]]]].
  - destruct (Z.leb_spec 2 (Z.of_nat n)); split; intros; first [done|lia].
  - destruct (Z.leb_spec 2 (Z.of_nat n)); split; intros; first [done|lia].
  - unfold n, MoneyhashIntegrationDetails.providerCount. by intros ->.
  - unfold n, MoneyhashIntegrationDetails.providerCount. by intros pp ->.
Qed.

Lemma elem_of_handlers {A} (c : A) (elements : list (Element A)) :
  c ∈ handlers elements
  ↔ ∃ e, e ∈ elements ∧ c ∈ match e with Button a => [a] | Popper menu => menu end.
Proof.
  unfold handlers. rewrite list_elem_of_bind. split; intros (e & ? & ?); eauto.
Qed.

Lemma elem_of_when {A} (cond : bool) (x y : A) :
  y ∈ when cond x ↔ cond = true ∧ y = x.
Proof.
  destruct cond; simpl.
  - rewrite list_elem_of_singleton. by split; [|intros []].
  - rewrite elem_of_nil. by split; [|intros []].
Qed.

Lemma moneyhash_row_clicks hasPermissions data connection c e :
  e ∈ MoneyhashIntegrations.rowActions hasPermissions data connection →
  c ∈ match e with Button a => [a] | Popper menu => menu end →
  (MoneyhashIntegrations.canEditIntegration hasPermissions = true
   ∧ c = MoneyhashIntegrations.editClick data connection)
  ∨ (MoneyhashIntegrations.canDeleteIntegration hasPermissions = true
     ∧ c = MoneyhashIntegrations.deleteClick data connection).
Proof.
  unfold MoneyhashIntegrations.rowActions.
  intros [_ ->]%elem_of_when [?%elem_of_when|?%elem_of_when]%elem_of_app; auto.
Qed.

(** C5.  On the Moneyhash and on the Netsuite list page the callback
    handed to the delete dialog is a navigation to the integrations page
    exactly when the fetched connection list exists and holds one
    connection; without a list, with none or with several connections it
    is undefined. *)
Theorem list_deleteDialogCallback
    (hasPermissions : Permissions.HasPermissions) (loading : bool)
    (moneyhash : option MoneyhashIntegrations.GetMoneyhashIntegrationsListQuery)
    (netsuite : option NetsuiteIntegrations.GetNetsuiteIntegrationsListQuery) :
  (∀ args,
     deleteDialog_openDialog args
       ∈ handlers (MoneyhashIntegrations.render hasPermissions moneyhash loading) →
     callback args = MoneyhashIntegrations.deleteDialogCallback moneyhash)
  ∧ (∀ cb, MoneyhashIntegrations.deleteDialogCallback moneyhash = Some cb
           ↔ (∃ c, MoneyhashIntegrations.connections moneyhash = Some [c])
             ∧ cb = [navigate (generatePath INTEGRATIONS_ROUTE Community)])
  ∧ (MoneyhashIntegrations.deleteDialogCallback moneyhash = None
     ↔ ∀ c, MoneyhashIntegrations.connections moneyhash ≠ Some [c])
  ∧ (∀ args,
       deleteDialog_openDialog args
         ∈ handlers (NetsuiteIntegrations.render netsuite loading) →
       callback args = NetsuiteIntegrations.deleteDialogCallback netsuite)
  ∧ (∀ cb, NetsuiteIntegrations.deleteDialogCallback netsuite = Some cb
           ↔ (∃ c, NetsuiteIntegrations.connections netsuite = Some [c])
             ∧ cb = [navigate (generatePath INTEGRATIONS_ROUTE Lago)])
  ∧ (NetsuiteIntegrations.deleteDialogCallback netsuite = None
     ↔ ∀ c, NetsuiteIntegrations.connections netsuite ≠ Some [c]).
Proof.
  split; [|split; [|split; [|split; [|split]]]].
  - intros args (e & He & Hc)%elem_of_handlers.
    unfold MoneyhashIntegrations.render in He.
    apply elem_of_app in He as [He|He].
    + unfold MoneyhashIntegrations.headerActions in He.
      apply elem_of_when in He as [_ ->]. by apply list_elem_of_singleton in Hc.
    + unfold MoneyhashIntegrations.listActions in He.
      destruct loading; [by apply elem_of_nil in He|].
      apply list_elem_of_bind in He as (connection & He & _).
      by destruct (moneyhash_row_clicks _ _ _ _ _ He Hc) as [[_ ?]|[_ [= ->]]].
  - intros cb. unfold MoneyhashIntegrations.deleteDialogCallback.
    destruct (MoneyhashIntegrations.connections moneyhash) as [[|c [|c' cs]]|]; simpl;
      split; try done; try (by intros [[? ?] _]).
    + intros [= <-]. eauto.
    + by intros [_ ->].
  - unfold MoneyhashIntegrations.deleteDialogCallback.
    destruct (MoneyhashIntegrations.connections moneyhash) as [[|c [|c' cs]]|]; simpl;
      split; try done.
    intros H. by destruct (H c).
  - intros args (e & He & Hc)%elem_of_handlers.
    unfold NetsuiteIntegrations.render in He.
    apply elem_of_cons in He as [->|He]; [by apply list_elem_of_singleton in Hc|].
    destruct loading; [by apply elem_of_nil in He|].
    apply list_elem_of_bind in He as (connection & He & _).
    unfold NetsuiteIntegrations.rowActions in He.
    apply list_elem_of_singleton in He as ->.
    apply elem_of_cons in Hc as [?|Hc]; [done|].
    by apply list_elem_of_singleton in Hc as [= ->].
  - intros cb. unfold NetsuiteIntegrations.deleteDialogCallback.
    destruct (NetsuiteIntegrations.connections netsuite) as [[|c [|c' cs]]|]; simpl;
      split; try done; try (by intros [[? ?] _]).
    + intros [= <-]. eauto.
    + by intros [_ ->].
  - unfold NetsuiteIntegrations.deleteDialogCallback.
    destruct (NetsuiteIntegrations.connections netsuite) as [[|c [|c' cs]]|]; simpl;
      split; try done.
    intros H. by destruct (H c).
Qed.

End DeleteCallbacks.

(** ** Actions shown to a member *)

Section PermissionGates.
Import Permissions Ui IntegrationDialogs.

(** [held] tells which permissions the current member holds;
    [hasPermissions] is the function the pages get from
    [usePermissions].  All that is used of it: a non-empty list it grants
    names at least one permission the member holds. *)
Variable held : Permission → bool.
Variable hasPermissions : HasPermissions.
Hypothesis hasPermissions_held :
  ∀ permissionsToCheck,
    permissionsToCheck ≠ [] → hasPermissions permissionsToCheck = true →
    ∃ p, p ∈ permissionsToCheck ∧ held p = true.

Lemma hasPermissions_one p : hasPermissions [p] = true → held p = true.
Proof.
  intros H. destruct (hasPermissions_held [p]) as (q & Hq & Hheld); [done|done|].
  by apply list_elem_of_singleton in Hq as ->.
Qed.

Lemma hasPermissions_none p : held p = false → hasPermissions [p] = false.
Proof.
  intros Hp. destruct (hasPermissions [p]) eqn:H; [|done].
  apply hasPermissions_one in H. congruence.
Qed.

Lemma details_clicks data c :
  c ∈ handlers (MoneyhashIntegrationDetails.render hasPermissions data) →
  (MoneyhashIntegrationDetails.canEditIntegration hasPermissions = true
   ∧ c = MoneyhashIntegrationDetails.editClick data)
  ∨ (MoneyhashIntegrationDetails.canDeleteIntegration hasPermissions = true
     ∧ c = MoneyhashIntegrationDetails.deleteClick data).
Proof.
  intros (e & He & Hc)%elem_of_handlers.
  unfold MoneyhashIntegrationDetails.render in He.
  apply elem_of_app in He as [He|He].
  - unfold MoneyhashIntegrationDetails.headerActions in He.
    apply elem_of_when in He as [_ ->].
    apply elem_of_app in Hc as [?%elem_of_when|?%elem_of_when]; auto.
  - unfold MoneyhashIntegrationDetails.sectionActions in He.
    apply elem_of_when in He as [? ->].
    apply list_elem_of_singleton in Hc. auto.
Qed.

Lemma list_clicks data loading c :
  c ∈ handlers (MoneyhashIntegrations.render hasPermissions data loading) →
  (MoneyhashIntegrations.canCreateIntegration hasPermissions = true ∧ isCreate c)
  ∨ (MoneyhashIntegrations.canEditIntegration hasPermissions = true
     ∧ ∃ connection, c = MoneyhashIntegrations.editClick data connection)
  ∨ (MoneyhashIntegrations.canDeleteIntegration hasPermissions = true
     ∧ ∃ connection, c = MoneyhashIntegrations.deleteClick data connection).
Proof.
  intros (e & He & Hc)%elem_of_handlers.
  unfold MoneyhashIntegrations.render in He.
  apply elem_of_app in He as [He|He].
  - unfold MoneyhashIntegrations.headerActions in He.
    apply elem_of_when in He as [? ->].
    apply list_elem_of_singleton in Hc. auto.
  - unfold MoneyhashIntegrations.listActions in He.
    destruct loading; [by apply elem_of_nil in He|].
    apply list_elem_of_bind in He as (connection & He & _).
    destruct (moneyhash_row_clicks _ _ _ _ _ He Hc) as [[? ?]|[? ?]]; eauto.
Qed.

(** C6.  The Moneyhash pages show an edit action only to a member who
    holds [organizationIntegrationsUpdate], a delete action only with
    [organizationIntegrationsDelete], the create button only with
    [organizationIntegrationsCreate], and no actions menu to a member
    who holds neither update nor delete; the wallets list shows its
    action area only to a member who holds at least one of
    [walletsCreate], [walletsTopUp], [walletsUpdate] and
    [walletsTerminate]. *)
Theorem actions_need_permissions
    (details : option MoneyhashIntegrationDetails.GetMoneyhashIntegrationsDetailsQuery)
    (moneyhash : option MoneyhashIntegrations.GetMoneyhashIntegrationsListQuery)
    (loading : bool)
    (wallets : option CustomerWalletsList.GetCustomerWalletListQuery) :
  (∀ c, c ∈ handlers (MoneyhashIntegrationDetails.render hasPermissions details) →
     (isEdit c → held organizationIntegrationsUpdate = true)
     ∧ (isDelete c → held organizationIntegrationsDelete = true))
  ∧ (held organizationIntegrationsUpdate = false →
     held organizationIntegrationsDelete = false →
     MoneyhashIntegrationDetails.headerActions hasPermissions details = [])
  ∧ (∀ c, c ∈ handlers (MoneyhashIntegrations.render hasPermissions moneyhash loading) →
       (isCreate c → held organizationIntegrationsCreate = true)
       ∧ (isEdit c → held organizationIntegrationsUpdate = true)
       ∧ (isDelete c → held organizationIntegrationsDelete = true))
  ∧ (held organizationIntegrationsUpdate = false →
     held organizationIntegrationsDelete = false →
     MoneyhashIntegrations.listActions hasPermissions moneyhash loading = [])
  ∧ (CustomerWalletsList.customAction hasPermissions wallets ≠ [] →
     ∃ p, p ∈ [walletsCreate; walletsTopUp; walletsUpdate; walletsTerminate]
          ∧ held p = true).
Proof.
  split; [|split; [|split; [|split]]].
  - intros c [[Hp ->]|[Hp ->]]%details_clicks; apply hasPermissions_one in Hp;
      (split; [intros [args [=]]|intros [args [=]]]); done.
  - intros Hu%hasPermissions_none Hd%hasPermissions_none.
    unfold MoneyhashIntegrationDetails.headerActions,
      MoneyhashIntegrationDetails.canEditIntegration,
      MoneyhashIntegrationDetails.canDeleteIntegration.
    by rewrite Hu, Hd.
  - intros c [[Hp ->]|[[Hp [connection ->]]|[Hp [connection ->]]]]%list_clicks;
      apply hasPermissions_one in Hp; unfold isCreate;
      (split; [|split]); first [done|by intros [args [=]]].
  - intros Hu%hasPermissions_none Hd%hasPermissions_none.
    unfold MoneyhashIntegrations.listActions. destruct loading; [done|].
    assert (∀ x, MoneyhashIntegrations.rowActions hasPermissions moneyhash x = [])
      as Hrow.
    { intros x. unfold MoneyhashIntegrations.rowActions,
        MoneyhashIntegrations.canEditIntegration,
        MoneyhashIntegrations.canDeleteIntegration.
      by rewrite Hu, Hd. }
    generalize (default [] (MoneyhashIntegrations.connections moneyhash)).
    intros l. induction l as [|x l IH]; [done|].
    by rewrite bind_cons, Hrow, IH.
  - unfold CustomerWalletsList.customAction.
    destruct (CustomerWalletsList.hasAnyPermissionsToShowActions hasPermissions) eqn:Hany;
      [intros _|done].
    by apply hasPermissions_held in Hany.
Qed.

End PermissionGates.

Section PermissionGatesWitness.
Import Permissions Ui IntegrationDialogs.

Lemma grantsAll_held held permissionsToCheck :
  permissionsToCheck ≠ [] → grantsAll held permissionsToCheck = true →
  ∃ p, p ∈ permissionsToCheck ∧ held p = true.
Proof.
  destruct permissionsToCheck as [|p ps]; [done|intros _].
  unfold grantsAll. simpl. intros [Hp _]%andb_prop.
  exists p. split; [by left|done].
Qed.

Lemma actions_need_permissions_witness :
  MoneyhashIntegrationDetails.editClick None
    ∈ handlers (MoneyhashIntegrationDetails.render (grantsAll integrationsEditor) None)
  ∧ MoneyhashIntegrations.listActions (grantsAll integrationsEditor) None false = []
  ∧ integrationsEditor organizationIntegrationsUpdate = true.
Proof.
  assert (MoneyhashIntegrationDetails.editClick None
            ∈ handlers (MoneyhashIntegrationDetails.render
                          (grantsAll integrationsEditor) None)) as Hin
    by (vm_compute; by left).
  destruct (actions_need_permissions integrationsEditor (grantsAll integrationsEditor)
              (grantsAll_held integrationsEditor) None None false None)
    as (Hdetails & _ & _ & _ & _).
  split; [done|]. split; [done|].
  apply (Hdetails _ Hin). by eexists.
Defined.

End PermissionGatesWitness.

(** ** Webhook logs: the rendered list *)

Section WebhookLogsListFacts.
Import WebhookLogs WebhookLogsList.
Variable formatTimeOrgaTZ : string → string.

Lemma lookup_assign {A} (o : Js.Obj A) k v k' :
  JsObject.lookup (JsObject.assign o k v) k'
  = if decide (k = k') then Some v else JsObject.lookup o k'.
Proof.
  induction o as [|[k0 v0] o IH]; simpl.
  - by repeat case_decide.
  - destruct (decide (k0 = k)) as [->|Hne]; simpl.
    + by repeat case_decide.
    + rewrite IH. repeat case_decide; congruence.
Qed.

Lemma keys_assign {A} (o : Js.Obj A) k v :
  Js.keys (JsObject.assign o k v)
  = if decide (k ∈ Js.keys o) then Js.keys o else Js.keys o ++ [k].
Proof.
  unfold Js.keys. induction o as [|[k0 v0] o IH].
  - done.
  - cbn [JsObject.assign]. rewrite !fmap_cons. cbn [fst].
    destruct (decide (k0 = k)) as [->|Hne].
    + rewrite fmap_cons. cbn [fst]. clear IH. case_decide as Hin; [done|].
      destruct Hin. by left.
    + rewrite fmap_cons, IH. cbn [fst]. clear IH.
      destruct (decide (k ∈ o.*1)) as [Hin|Hnin]; case_decide as Hin'; try done.
      * destruct Hin'. by right.
      * apply elem_of_cons in Hin' as [?|?]; congruence.
Qed.

Lemma lookup_None_keys {A} (o : Js.Obj A) k :
  JsObject.lookup o k = None ↔ k ∉ Js.keys o.
Proof.
  unfold Js.keys. induction o as [|[k0 v0] o IH].
  - split; [intros _ ?%elem_of_nil|]; done.
  - cbn [JsObject.lookup]. rewrite fmap_cons. cbn [fst]. case_decide as Hk.
    + subst. split; [done|]. intros []. by left.
    + rewrite IH, not_elem_of_cons. split; [by split|by intros [_ ?]].
Qed.

Lemma flatten_assign_snoc {A} (o : Js.Obj (list A)) k x :
  concat (JsObject.assign o k (default [] (JsObject.lookup o k) ++ [x])).*2
  ≡ₚ concat o.*2 ++ [x].
Proof.
  induction o as [|[k0 l0] o IH]; simpl; [done|].
  case_decide; simpl.
  - rewrite <- !app_assoc. f_equiv. apply Permutation_app_comm.
  - by rewrite IH, app_assoc.
Qed.

Lemma groups_assign {A} (P : list A → Prop) (o : Js.Obj (list A)) k v :
  Forall P o.*2 → P v → Forall P (JsObject.assign o k v).*2.
Proof.
  intros Ho Hv. induction o as [|[k0 l0] o IH]; simpl.
  - by repeat constructor.
  - apply Forall_cons in Ho as [Hl0 Ho]. case_decide; simpl.
    + by constructor.
    + constructor; [done|by apply IH].
Qed.

Lemma head_assign_snoc {A} (o : Js.Obj (list A)) k x :
  o ≠ [] → Forall (λ l, l ≠ []) o.*2 →
  head (concat (JsObject.assign o k (default [] (JsObject.lookup o k) ++ [x])).*2)
  = head (concat o.*2).
Proof.
  destruct o as [|[k0 l0] o]; [done|]. intros _ [Hl0 _]%Forall_cons. simpl.
  case_decide; simpl; by destruct l0.
Qed.

Lemma insertIndex_lookup {A} (o : Js.Obj A) n k v k' :
  JsObject.lookup o k = None →
  JsObject.lookup (JsObject.insertIndex n k v o) k'
  = if decide (k = k') then Some v else JsObject.lookup o k'.
Proof.
  induction o as [|[k0 v0] o IH]; [done|]. simpl.
  destruct (decide (k0 = k)) as [->|Hne]; [done|]. intros Hnone.
  destruct (JsObject.arrayIndex k0) as [n0|]; [|done].
  destruct (n0 <? n)%N; [|done]. simpl. rewrite IH by done.
  repeat case_decide; congruence.
Qed.

Lemma insertIndex_entries {A} (o : Js.Obj A) n k v :
  JsObject.insertIndex n k v o ≡ₚ (k, v) :: o.
Proof.
  induction o as [|[k0 v0] o IH]; [done|]. simpl.
  destruct (JsObject.arrayIndex k0) as [n0|]; [|done].
  destruct (n0 <? n)%N; [|done]. rewrite IH. apply Permutation_swap.
Qed.

Lemma insertIndex_flatten {A} (o : Js.Obj (list A)) n k v :
  concat (JsObject.insertIndex n k v o).*2 ≡ₚ concat o.*2 ++ v.
Proof.
  induction o as [|[k0 l0] o IH]; simpl; [by rewrite app_nil_r|].
  destruct (JsObject.arrayIndex k0) as [n0|];
    [destruct (n0 <? n)%N|]; simpl;
    first [ by rewrite IH, app_assoc
          | rewrite (Permutation_app_comm v); by rewrite <- app_assoc ].
Qed.

Lemma put_lookup {A} (o : Js.Obj A) k v k' :
  JsObject.lookup (JsObject.put o k v) k'
  = if decide (k = k') then Some v else JsObject.lookup o k'.
Proof.
  unfold JsObject.put.
  destruct (JsObject.lookup o k) eqn:Hl, (JsObject.arrayIndex k);
    first [apply lookup_assign|by apply insertIndex_lookup].
Qed.

Lemma put_plain {A} (o : Js.Obj A) k v :
  JsObject.arrayIndex k = None → JsObject.put o k v = JsObject.assign o k v.
Proof. unfold JsObject.put. intros ->. by destruct (JsObject.lookup o k). Qed.

Lemma put_not_nil {A} (o : Js.Obj A) k v : JsObject.put o k v ≠ [].
Proof.
  assert (JsObject.assign o k v ≠ []) as Hassign.
  { destruct o as [|[k0 v0] o]; simpl; [done|]. by case_decide. }
  unfold JsObject.put.
  destruct (JsObject.lookup o k), (JsObject.arrayIndex k); try done.
  intros Hnil. pose proof (insertIndex_entries o n k v) as Hperm.
  rewrite Hnil in Hperm. by apply Permutation_nil_cons in Hperm.
Qed.

Lemma put_wf {A} (o : Js.Obj A) k v : Js.wf o → Js.wf (JsObject.put o k v).
Proof.
  assert (Js.wf o → Js.wf (JsObject.assign o k v)) as Hassign.
  { unfold Js.wf. rewrite keys_assign. intros Hwf. case_decide as Hin; [done|].
    apply NoDup_app. split; [done|]. split; [|apply NoDup_singleton].
    by intros k' Hk ->%list_elem_of_singleton. }
  unfold JsObject.put.
  destruct (JsObject.lookup o k) eqn:Hl, (JsObject.arrayIndex k); try done.
  unfold Js.wf, Js.keys. intros Hwf. rewrite insertIndex_entries, fmap_cons.
  apply NoDup_cons. split; [|done]. by apply lookup_None_keys.
Qed.

Lemma put_groups {A} (P : list A → Prop) (o : Js.Obj (list A)) k v :
  Forall P o.*2 → P v → Forall P (JsObject.put o k v).*2.
Proof.
  intros Ho Hv. unfold JsObject.put.
  destruct (JsObject.lookup o k), (JsObject.arrayIndex k);
    try (by apply groups_assign).
  rewrite insertIndex_entries, fmap_cons. by constructor.
Qed.

Lemma put_flatten_snoc {A} (o : Js.Obj (list A)) k x :
  concat (JsObject.put o k (default [] (JsObject.lookup o k) ++ [x])).*2
  ≡ₚ concat o.*2 ++ [x].
Proof.
  unfold JsObject.put.
  destruct (JsObject.lookup o k) eqn:Hl, (JsObject.arrayIndex k).
  - rewrite <- flatten_assign_snoc. by rewrite Hl.
  - rewrite <- flatten_assign_snoc. by rewrite Hl.
  - simpl. apply insertIndex_flatten.
  - rewrite <- flatten_assign_snoc. by rewrite Hl.
Qed.

(** The list the properties below are proved for, by induction on the
    fetched collection. *)
Lemma groupedLogsObject_invariant data :
  let coll := default [] (data_collection data) in
  let o := groupedLogsObject formatTimeOrgaTZ data in
  Js.wf o
  ∧ (∀ date, JsObject.lookup o date = groupedLogs formatTimeOrgaTZ data !! date)
  ∧ Forall (λ l, l ≠ []) o.*2
  ∧ concat o.*2 ≡ₚ coll
  ∧ ((∀ l, l ∈ coll → JsObject.arrayIndex (formatTimeOrgaTZ (createdAt l)) = None) →
     head (concat o.*2) = head coll)
  ∧ (coll = [] ↔ o = []).
Proof.
  unfold groupedLogsObject, groupedLogs. generalize (default [] (data_collection data)).
  intros coll. induction coll as [|x coll IH] using rev_ind.
  - simpl. repeat split; try done. apply NoDup_nil_2.
  - rewrite !foldl_snoc. simpl in IH. destruct IH as (Hwf & Hlk & Hne & Hperm & Hhd & Hnil).
    match goal with
    | |- context [JsObject.put (foldl ?f [] coll)] => set (o := foldl f [] coll) in *
    end.
    match goal with
    | |- context [insert _ _ (foldl ?f ∅ coll)] => set (g := foldl f ∅ coll) in *
    end.
    cbv zeta. set (date := formatTimeOrgaTZ (createdAt x)).
    split; [|split; [|split; [|split; [|split]]]].
    + by apply put_wf.
    + intros d. rewrite put_lookup, Hlk. case_decide as Hd.
      * subst d. by rewrite lookup_insert_eq.
      * by rewrite lookup_insert_ne.
    + apply put_groups; [done|]. by destruct (default [] _).
    + by rewrite put_flatten_snoc, Hperm.
    + intros Hplain. rewrite put_plain by (apply Hplain, elem_of_app; right; by left).
      destruct coll as [|y coll']; [done|].
      rewrite head_assign_snoc; [|by intros Ho; apply Hnil in Ho|done].
      rewrite Hhd; [done|]. intros l Hl. apply Hplain, elem_of_app. by left.
    + split; [by intros [_ [=]]%app_eq_nil|]. intros Hput. by apply put_not_nil in Hput.
Qed.

(** X1.  Date headers.  Each date of the fetched logs heads exactly one group
    of the list and no other header is shown; the groups are those of
    [groupedLogs]; there is no group exactly when [hasLogs] is false. *)
Theorem webhook_date_headers (data : option GetWebhookLogQuery) :
  let coll := default [] (data_collection data) in
  let o := groupedLogsObject formatTimeOrgaTZ data in
  NoDup (Js.keys o)
  ∧ (∀ date, date ∈ Js.keys o
             ↔ ∃ l, l ∈ coll ∧ formatTimeOrgaTZ (createdAt l) = date)
  ∧ (∀ date, JsObject.lookup o date = groupedLogs formatTimeOrgaTZ data !! date)
  ∧ (hasLogs data = false ↔ o = [])
  ∧ (hasLogs data = false ↔ groupedLogs formatTimeOrgaTZ data = ∅).
Proof.
  intros coll o.
  destruct (groupedLogsObject_invariant data) as (Hwf & Hlk & _ & _ & _ & Hnil).
  fold coll o in Hlk, Hnil, Hwf.
  assert (hasLogs data = false ↔ coll = []) as Hhas.
  { unfold hasLogs, coll. by destruct (data_collection data) as [[|]|]. }
  split; [done|]. split; [|split; [done|split]].
  - intros date.
    destruct (decide (date ∈ Js.keys o)) as [Hin|Hnin].
    + split; [intros _|done].
      destruct (JsObject.lookup o date) as [logs|] eqn:Hl;
        [|by apply lookup_None_keys in Hl].
      rewrite Hlk, groupedLogs_lookup in Hl. simpl in Hl.
      case_decide as Hf; [done|].
      destruct (filter _ _) as [|l ?] eqn:Hfilter; [done|].
      assert (l ∈ filter (λ log, formatTimeOrgaTZ (createdAt log) = date) coll) as Hl'
        by (unfold coll; rewrite Hfilter; by left).
      apply list_elem_of_filter in Hl' as [? ?]. eauto.
    + split; [done|]. intros (l & Hl & Hd). exfalso.
      apply lookup_None_keys in Hnin as Hnone. rewrite Hlk, groupedLogs_lookup in Hnone.
      simpl in Hnone. case_decide as Hf; [|done].
      assert (l ∈ filter (λ log, formatTimeOrgaTZ (createdAt log) = date) coll) as Hl'
        by (by apply list_elem_of_filter).
      unfold coll in Hl'. rewrite Hf in Hl'. by apply elem_of_nil in Hl'.
  - by rewrite Hhas.
  - rewrite Hhas, Hnil. split.
    + intros Ho. apply map_eq. intros d. by rewrite <- Hlk, Ho, lookup_empty.
    + intros Hg. destruct o as [|[k l] o'] eqn:Ho; [done|].
      specialize (Hlk k). rewrite Hg, lookup_empty in Hlk. simpl in Hlk.
      by rewrite decide_True in Hlk.
Qed.

Lemma items_logs data st :
  log <$> items formatTimeOrgaTZ data st
  = concat (groupedLogsObject formatTimeOrgaTZ data).*2.
Proof.
  unfold items. generalize (concat (groupedLogsObject formatTimeOrgaTZ data).*2).
  intros l. rewrite fmap_imap. unfold compose. simpl.
  induction l as [|x l IH] using rev_ind; [done|].
  rewrite imap_app. simpl. by rewrite IH.
Qed.

Lemma items_selected data st item :
  item ∈ items formatTimeOrgaTZ data st →
  selected item = true ↔ selectedLogId st = Some (logId (log item)).
Proof.
  unfold items. intros (i & l & -> & _)%elem_of_lookup_imap. simpl.
  apply bool_decide_eq_true.
Qed.


(** X3.  Details.  After a data update that brought at least one log, and
    with pairwise distinct log ids, the details of exactly one log are
    shown: the first fetched log. *)
Theorem webhook_details_after_update (data : option GetWebhookLogQuery)
    (st : State) (first : WebhookLogFragment) (more : list WebhookLogFragment) :
  data_collection data = Some (first :: more) →
  NoDup (logId <$> first :: more) →
  detailsShown formatTimeOrgaTZ data (step st (DataUpdated data)) = [first].
Proof.
  intros Hc Hnd.
  set (st' := step st (DataUpdated data)).
  assert (selectedLogId st' = Some (logId first)) as Hsel
    by (by apply (selection_update_first st data first more)).
  destruct (groupedLogsObject_invariant data) as (_ & _ & _ & Hperm & _ & _).
  rewrite Hc in Hperm. simpl in Hperm.
  unfold detailsShown, items.
  set (flat := concat (groupedLogsObject formatTimeOrgaTZ data).*2) in *.
  assert (∀ l : list WebhookLogFragment,
    log <$> filter (λ item, selected item = true)
              (imap (λ i log,
                 {| index := i; log := log;
                    selected := bool_decide (selectedLogId st' = Some (logId log)) |}) l)
    = filter (λ log, logId log = logId first) l) as Hfilter.
  { intros l. rewrite Hsel. clear. induction l as [|x l IH] using rev_ind; [done|].
    rewrite imap_app, !filter_app, fmap_app, IH. f_equal. simpl.
    rewrite !filter_cons, !filter_nil. simpl.
    destruct (decide (logId x = logId first)) as [He|Hne].
    - rewrite decide_True; [done|]. apply bool_decide_eq_true. by rewrite He.
    - rewrite decide_False; [done|]. rewrite bool_decide_eq_true. congruence. }
  rewrite Hfilter. apply Permutation_singleton_r.
  rewrite Hperm, filter_cons_True by done.
  assert (filter (λ log, logId log = logId first) more = []) as ->; [|done].
  destruct (filter (λ log, logId log = logId first) more) as [|l ?] eqn:Hf; [done|].
  exfalso.
  assert (l ∈ filter (λ log, logId log = logId first) more)
    as [Heq Hl]%list_elem_of_filter by (rewrite Hf; by left).
  rewrite fmap_cons in Hnd. apply NoDup_cons in Hnd as [Hnot _].
  destruct Hnot. rewrite <- Heq. by apply list_elem_of_fmap_2.
Qed.


End WebhookLogsListFacts.

Section WebhookLogsListWitness.
Import WebhookLogs WebhookLogsList.

Lemma webhook_details_after_update_witness :
  let first := {| logId := "log_1"; createdAt := "2024-05-02T10:00:00Z"; endpoint := "https://example.test/hook" |} in
  let second := {| logId := "log_2"; createdAt := "2024-05-01T09:00:00Z"; endpoint := "https://example.test/hook" |} in
  let data := Some {| webhooks := Some {| metadata := {| Graphql.currentPage := 1; Graphql.totalPages := 1 |};
                                          collection := [first; second] |} |} in
  detailsShown (λ createdAt, String.substring 0 10 createdAt) data
    (step {| selectedLogId := Some "log_2"; fetchMoreLoading := false |} (DataUpdated data))
  = [first].
Proof.
  intros first second data.
  apply (webhook_details_after_update (λ createdAt, String.substring 0 10 createdAt)
           data _ first [second]); [done|].
  apply (bool_decide_unpack _). by vm_compute.
Defined.


(** Dates that read as array indices are listed in ascending order,
    before the others: with a formatter that yields digits only, the
    rows of the older day come first although its log was fetched
    second. *)
Example rows_of_digit_dates :
  let log_1 := {| logId := "log_1"; createdAt := "20240502"; endpoint := "https://example.test/hook" |} in
  let log_2 := {| logId := "log_2"; createdAt := "20240501"; endpoint := "https://example.test/hook" |} in
  let log_3 := {| logId := "log_3"; createdAt := "20240502"; endpoint := "https://example.test/hook" |} in
  let data := Some {| webhooks := Some {| metadata := {| Graphql.currentPage := 1; Graphql.totalPages := 1 |};
                                          collection := [log_1; log_2; log_3] |} |} in
  let st := {| selectedLogId := Some "log_1"; fetchMoreLoading := false |} in
  Js.keys (groupedLogsObject (λ createdAt, createdAt) data) = ["20240501"; "20240502"]
  ∧ log <$> items (λ createdAt, createdAt) data st = [log_2; log_1; log_3]
  ∧ Js.keys (groupedLogsObject (λ createdAt, "d" +:+ createdAt) data)
    = ["d20240502"; "d20240501"]
  ∧ log <$> items (λ createdAt, "d" +:+ createdAt) data st = [log_1; log_3; log_2].
Proof. by vm_compute. Qed.

End WebhookLogsListWitness.

(** ** Credit-note form: checking a whole subscription *)

Section SubscriptionCheckbox.
Import CreateCreditNote CreateCreditNoteFees.

Lemma assign_fresh {A} (o : Js.Obj A) k v :
  k ∉ Js.keys o → JsObject.assign o k v = o ++ [(k, v)].
Proof.
  unfold Js.keys. induction o as [|[k0 v0] o IH]; [done|].
  rewrite fmap_cons. cbn [fst]. intros [Hne Hk]%not_elem_of_cons. simpl.
  rewrite decide_False by done. by rewrite IH.
Qed.

Lemma assign_not_nil {A} (o : Js.Obj A) k v : JsObject.assign o k v ≠ [].
Proof. destruct o as [|[k0 v0] o]; simpl; [done|]. by case_decide. Qed.

Lemma values_assign {A} (P : A → Prop) (o : Js.Obj A) k v :
  Forall P o.*2 → P v → Forall P (JsObject.assign o k v).*2.
Proof.
  intros Ho Hv. induction o as [|[k0 v0] o IH]; simpl.
  - by repeat constructor.
  - apply Forall_cons in Ho as [Hv0 Ho]. case_decide; simpl.
    + by constructor.
    + constructor; [done|by apply IH].
Qed.

(** Rebuilding an object key by key. *)
Lemma rebuild_values {A B} (P : B → Prop) (f : A → B) (o : Js.Obj A) acc :
  Forall P acc.*2 → (∀ v, v ∈ o.*2 → P (f v)) →
  Forall P (foldl (λ acc '(k, v), JsObject.assign acc k (f v)) acc o).*2.
Proof.
  revert acc. induction o as [|[k v] o IH]; intros acc Hacc Hf; [done|].
  simpl. apply IH.
  - apply values_assign; [done|]. apply Hf. by left.
  - intros v' Hv'. apply Hf. by right.
Qed.

Lemma rebuild_not_nil {A B} (f : A → B) (o : Js.Obj A) acc :
  o ≠ [] ∨ acc ≠ [] →
  foldl (λ acc '(k, v), JsObject.assign acc k (f v)) acc o ≠ [].
Proof.
  revert acc. induction o as [|[k v] o IH]; intros acc Hne; simpl.
  - by destruct Hne.
  - apply IH. right. apply assign_not_nil.
Qed.

Lemma rebuild_map {A B} (f : A → B) (o : Js.Obj A) acc :
  NoDup (Js.keys acc ++ Js.keys o) →
  foldl (λ acc '(k, v), JsObject.assign acc k (f v)) acc o
  = acc ++ (prod_map id f <$> o).
Proof.
  unfold Js.keys. revert acc. induction o as [|[k v] o IH]; intros acc Hnd.
  - by rewrite app_nil_r.
  - simpl. rewrite fmap_cons in Hnd. cbn [fst] in Hnd.
    apply NoDup_app in Hnd as (Hacc & Hdisj & Ho).
    apply NoDup_cons in Ho as [Hk Ho].
    rewrite assign_fresh by (intros Hin; apply (Hdisj _ Hin); by left).
    rewrite IH, <- app_assoc; [done|].
    rewrite fmap_app. simpl. rewrite <- app_assoc. simpl.
    apply NoDup_app. split; [done|]. split; [|by apply NoDup_cons].
    intros x Hx. apply (Hdisj x Hx).
Qed.

Lemma toggleEntry_checked value child :
  entryPopulated child →
  entryPopulated (toggleEntry value child)
  ∧ ∀ c, c ∈ entryLeaves (toggleEntry value child) → c = Some value.
Proof.
  destruct child as [f|g]; simpl.
  - intros [b Hb]. rewrite Hb. simpl. split; [by eexists|].
    by intros c ->%list_elem_of_singleton.
  - intros Hg. split.
    + apply rebuild_not_nil. by left.
    + intros c (kv & -> & Hkv)%list_elem_of_fmap.
      assert (Forall (λ fee, checked fee = Some value)
                (toggleGrouped value (grouped g)).*2) as Hall
        by (by apply rebuild_values).
      rewrite Forall_forall in Hall. apply Hall. by apply list_elem_of_fmap_2.
Qed.

Lemma toggleAll_checked value (sub : SubscriptionFees) :
  populated sub → fees sub ≠ [] →
  let sub' := {| subscriptionName := subscriptionName sub;
                 fees := toggleAll value (fees sub) |} in
  populated sub'
  ∧ leafFlags sub' ≠ []
  ∧ ∀ c, c ∈ leafFlags sub' → c = Some value.
Proof.
  intros Hpop Hne sub'.
  assert (Forall (λ e, entryPopulated e
                       ∧ ∀ c, c ∈ entryLeaves e → c = Some value) (fees sub').*2) as Hall.
  { apply rebuild_values; [done|]. intros e (kv & -> & Hkv)%list_elem_of_fmap.
    apply toggleEntry_checked. unfold populated in Hpop.
    rewrite Forall_forall in Hpop. by apply Hpop. }
  assert (fees sub' ≠ []) as Hne' by (apply rebuild_not_nil; by left).
  rewrite Forall_fmap in Hall. split; [|split].
  - unfold populated. eapply Forall_impl; [exact Hall|]. by intros kv [? _].
  - unfold leafFlags. destruct (fees sub') as [|[k e] rest]; [done|].
    apply Forall_cons in Hall as [[Hp _] _]. simpl in *.
    destruct e as [f|g]; simpl; [done|].
    simpl in Hp. by destruct (grouped g).
  - intros c (kv & Hc & Hkv)%list_elem_of_bind.
    rewrite Forall_forall in Hall. by apply (Hall kv Hkv).
Qed.

Lemma lookup_wf {A} (o : Js.Obj A) k v :
  Js.wf o → (k, v) ∈ o → JsObject.lookup o k = Some v.
Proof.
  unfold Js.wf, Js.keys. induction o as [|[k0 v0] o IH]; [by intros _ ?%elem_of_nil|].
  rewrite fmap_cons. cbn [fst]. intros [Hk Ho]%NoDup_cons [[= -> ->]|Hin]%elem_of_cons; simpl.
  - by rewrite decide_True.
  - rewrite decide_False; [by apply IH|]. intros ->. destruct Hk.
    by apply (list_elem_of_fmap_2 fst) in Hin.
Qed.

Lemma setFees_keys values_fees subKey newFees :
  Js.keys (setFees values_fees subKey newFees) = Js.keys values_fees.
Proof.
  unfold Js.keys, setFees. rewrite <- list_fmap_compose. apply list_fmap_ext.
  intros _ [k s] _. simpl. by case_decide.
Qed.

(** X5.  Checking (or unchecking) a subscription's checkbox.  When the
    subscription keys of the form hold no path separator, for a
    subscription of the form with at least one fee, whose direct fees
    carry a boolean flag and whose groups are not empty, [onChange]
    writes new form values, the checkbox then shows the value just
    chosen, and the checkboxes of the other subscriptions show what they
    showed before. *)
Theorem onChange_checks_group
    (values_fees : FeesPerInvoice) (subKey : string) (sub : SubscriptionFees)
    (value : bool) :
  Js.wf values_fees →
  forallb plainKey (Js.keys values_fees) = true →
  (subKey, sub) ∈ values_fees →
  populated sub →
  fees sub ≠ [] →
  ∃ fees',
    onChange (Some values_fees) subKey value = Written fees'
    ∧ Js.keys fees' = Js.keys values_fees
    ∧ groupCheckboxValue (Some fees') subKey = Bool value
    ∧ ∀ k s, (k, s) ∈ values_fees → k ≠ subKey →
        groupCheckboxValue (Some fees') k = groupCheckboxValue (Some values_fees) k.
Proof.
  intros Hwf Hplain Hin Hpop Hne. unfold onChange. simpl.
  assert (plainKey subKey = true) as ->.
  { rewrite forallb_forall in Hplain. apply Hplain, list_elem_of_In.
    by apply (list_elem_of_fmap_2 fst) in Hin. }
  rewrite Hplain. simpl.
  rewrite (lookup_wf _ _ _ Hwf Hin). eexists. split; [done|].
  set (fees' := setFees values_fees subKey (toggleAll value (fees sub))).
  assert (Js.wf fees') as Hwf' by (unfold Js.wf, fees'; by rewrite setFees_keys).
  split; [apply setFees_keys|]. split.
  - set (sub' := {| subscriptionName := subscriptionName sub;
                    fees := toggleAll value (fees sub) |}).
    assert ((subKey, sub') ∈ fees') as Hin'.
    { unfold fees', setFees. apply list_elem_of_fmap. exists (subKey, sub).
      simpl. by rewrite decide_True. }
    unfold groupCheckboxValue. rewrite (checkboxGroupValue_lookup _ _ _ Hwf' Hin'). simpl.
    destruct (toggleAll_checked value sub Hpop Hne) as (Hpop' & Hleaves & Hall).
    fold sub' in Hpop', Hleaves, Hall.
    transitivity (foldFlags Null (leafFlags sub'));
      [by apply subscription_value|by apply foldFlags_null_bool].
  - intros k s Hks Hk.
    assert ((k, s) ∈ fees') as Hks'.
    { unfold fees', setFees. apply list_elem_of_fmap. exists (k, s).
      simpl. by rewrite decide_False. }
    unfold groupCheckboxValue.
    by rewrite (checkboxGroupValue_lookup _ _ _ Hwf' Hks'),
      (checkboxGroupValue_lookup _ _ _ Hwf Hks).
Qed.

Lemma onChange_checks_group_witness :
  Js.wf sampleInvoiceFees
  ∧ forallb plainKey (Js.keys sampleInvoiceFees) = true
  ∧ ∃ fees',
      onChange (Some sampleInvoiceFees) "sub_2" true = Written fees'
      ∧ groupCheckboxValue (Some fees') "sub_2" = Bool true.
Proof.
  assert (Js.wf sampleInvoiceFees) as Hwf
    by (apply (bool_decide_unpack _); by vm_compute).
  split; [done|]. split; [done|].
  destruct (onChange_checks_group sampleInvoiceFees "sub_2"
              {| subscriptionName := "Basic";
                 fees := [("fee_4", Fee {| feeId := "fee_4"; checked := Some false |})] |}
              true Hwf)
    as (fees' & Hchange & _ & Hvalue & _).
  - done.
  - right. by left.
  - repeat constructor. by eexists.
  - done.
  - by exists fees'.
Defined.

(** A subscription key that holds a dot is outside what is followed:
    the path [sub.1.fees] is split at both dots. *)
Example onChange_dotted_key :
  onChange
    (Some [("sub.1",
            {| subscriptionName := "Premium";
               fees := [("fee_1", Fee {| feeId := "fee_1"; checked := Some false |})] |})])
    "sub.1" true
  = PathSplit.
Proof. reflexivity. Qed.

Lemma keys_prod_map {A B} (f : A → B) (o : Js.Obj A) :
  Js.keys (prod_map id f <$> o) = Js.keys o.
Proof.
  unfold Js.keys. rewrite <- list_fmap_compose. apply list_fmap_ext. by intros _ [k v] _.
Qed.

Lemma toggleGrouped_map value (g : Js.Obj FromFee) :
  Js.wf g → toggleGrouped value g = prod_map id (withChecked value) <$> g.
Proof.
  intros Hwf. unfold toggleGrouped.
  rewrite (rebuild_map (withChecked value) g []); done.
Qed.

Lemma toggleAll_map value (o : Js.Obj FeeEntry) :
  Js.wf o → toggleAll value o = prod_map id (toggleEntry value) <$> o.
Proof.
  intros Hwf. unfold toggleAll.
  rewrite (rebuild_map (toggleEntry value) o []); done.
Qed.

Lemma toggleEntry_twice v w child :
  match child with Group g => Js.wf (grouped g) | Fee _ => True end →
  toggleEntry w (toggleEntry v child) = toggleEntry w child.
Proof.
  destruct child as [f|g]; simpl.
  - intros _. destruct (checked f) eqn:Hf; simpl; by rewrite ?Hf.
  - intros Hwf. f_equal. f_equal.
    rewrite (toggleGrouped_map v (grouped g)) by done.
    rewrite (toggleGrouped_map w (grouped g)) by done.
    rewrite toggleGrouped_map by (unfold Js.wf; by rewrite keys_prod_map).
    rewrite <- list_fmap_compose. apply list_fmap_ext. by intros _ [k fee] _.
Qed.

Lemma toggleEntry_leaves v child :
  match child with Group g => Js.wf (grouped g) | Fee _ => True end →
  length (entryLeaves (toggleEntry v child)) = length (entryLeaves child)
  ∧ match toggleEntry v child with
    | Group g' => Js.wf (grouped g')
                  ∧ ∃ g, child = Group g ∧ Js.keys (grouped g') = Js.keys (grouped g)
    | Fee _ => ∃ f, child = Fee f
    end.
Proof.
  destruct child as [f|g]; simpl.
  - intros _. destruct (checked f); simpl; eauto.
  - intros Hwf. rewrite toggleGrouped_map by done.
    rewrite !length_fmap. split; [done|]. unfold Js.wf. rewrite keys_prod_map. eauto.
Qed.



(** X8.  The fee lines of a subscription.  They can be rendered exactly when
    every direct fee carries a boolean flag, and then there is one line
    per leaf fee; for a subscription whose direct fees are flagged and
    whose groups are not empty they can always be rendered. *)
Theorem feeItems_one_per_leaf (subKey : string) (sub : SubscriptionFees) :
  (is_Some (feeItems subKey sub)
   ↔ ∀ k f, (k, Fee f) ∈ fees sub → is_Some (checked f))
  ∧ (∀ lines, feeItems subKey sub = Some lines →
       length lines = length (leafFlags sub))
  ∧ (populated sub → is_Some (feeItems subKey sub)).
Proof.
  assert (is_Some (feeItems subKey sub)
          ↔ ∀ k f, (k, Fee f) ∈ fees sub → is_Some (checked f)) as Hsome.
  { unfold feeItems. rewrite fmap_is_Some, mapM_is_Some, Forall_forall. split.
    - intros H k f Hin. specialize (H _ Hin). simpl in H. by destruct (checked f).
    - intros H [k [f|g]] Hin; simpl; [|done].
      destruct (H k f Hin) as [b ->]. done. }
  split; [done|]. split.
  - unfold feeItems, leafFlags. intros lines.
    destruct (mapM _ _) as [ls|] eqn:Hm; [|done]. intros [= <-].
    apply mapM_Some in Hm. clear Hsome. induction Hm as [|[k e] l entries ls He _ IH]; [done|].
    simpl. rewrite !length_app, IH. f_equal.
    destruct e as [f|g]; simpl in *.
    + destruct (checked f); by simplify_eq.
    + simplify_eq. by rewrite !length_fmap.
  - intros Hpop. apply Hsome. intros k f Hin.
    unfold populated in Hpop. rewrite Forall_forall in Hpop. by apply (Hpop _ Hin).
Qed.

End SubscriptionCheckbox.

(** ** Credit-note form: the status badge *)

Section StatusBadge.
Import CreateCreditNote CreateCreditNoteFees.

(** X9.  A lost dispute overrides the payment status: the badge reads
    "disputeLost" exactly when the invoice has a dispute-lost date, it
    shows success only for a succeeded payment without a lost dispute,
    and without an invoice it reads "failed". *)
Theorem statusBadge_dispute (invoice : option Invoice) :
  (type (statusBadge invoice) = StatusType.danger ↔ disputeLost invoice = true)
  ∧ (label (statusBadge invoice) = "disputeLost" ↔ disputeLost invoice = true)
  ∧ (type (statusBadge invoice) = StatusType.success
     ↔ disputeLost invoice = false ∧ invoice ≫= paymentStatus = Some Succeeded)
  ∧ (disputeLost invoice = false →
     statusBadge invoice = mapStatus (invoice ≫= paymentStatus))
  ∧ statusBadge None = {| type := StatusType.warning; label := "failed" |}.
Proof.
  unfold statusBadge.
  destruct (disputeLost invoice); destruct (invoice ≫= paymentStatus) as [[]|];
    simpl; repeat split; try done; by intros [? ?].
Qed.

End StatusBadge.

(** ** Menus and dialogs of the integration pages *)

Section IntegrationMenus.
Import Router Permissions Ui IntegrationDialogs.

(** X11.  No empty menu.  Whatever [hasPermissions] answers, a menu shown on
    the Moneyhash pages holds at least one action, and a Netsuite row
    always offers edit and delete; the Moneyhash list shows one menu per
    connection or none at all. *)
Theorem menus_not_empty (hasPermissions : HasPermissions) (loading : bool)
    (details : option MoneyhashIntegrationDetails.GetMoneyhashIntegrationsDetailsQuery)
    (moneyhash : option MoneyhashIntegrations.GetMoneyhashIntegrationsListQuery)
    (netsuite : option NetsuiteIntegrations.GetNetsuiteIntegrationsListQuery) :
  (∀ menu, Popper menu ∈ MoneyhashIntegrationDetails.render hasPermissions details →
     menu ≠ [])
  ∧ (∀ menu, Popper menu ∈ MoneyhashIntegrations.render hasPermissions moneyhash loading →
       menu ≠ [])
  ∧ (length (MoneyhashIntegrations.listActions hasPermissions moneyhash loading)
     = if negb loading
          && (MoneyhashIntegrations.canEditIntegration hasPermissions
              || MoneyhashIntegrations.canDeleteIntegration hasPermissions)
       then length (default [] (MoneyhashIntegrations.connections moneyhash))
       else 0%nat)
  ∧ (∀ menu, Popper menu ∈ NetsuiteIntegrations.render netsuite loading →
       ∃ connection,
         connection ∈ default [] (NetsuiteIntegrations.connections netsuite)
         ∧ menu = [NetsuiteIntegrations.editClick netsuite connection;
                   NetsuiteIntegrations.deleteClick netsuite connection]).
Proof.
  split; [|split; [|split]].
  - intros menu. unfold MoneyhashIntegrationDetails.render,
      MoneyhashIntegrationDetails.headerActions,
      MoneyhashIntegrationDetails.sectionActions.
    destruct (MoneyhashIntegrationDetails.canEditIntegration hasPermissions),
      (MoneyhashIntegrationDetails.canDeleteIntegration hasPermissions); simpl;
      intros Hin; repeat (apply elem_of_cons in Hin as [[=]|Hin]; subst; try done);
      by apply elem_of_nil in Hin.
  - intros menu. unfold MoneyhashIntegrations.render,
      MoneyhashIntegrations.headerActions, MoneyhashIntegrations.listActions.
    intros [Hin|Hin]%elem_of_app.
    + by apply elem_of_when in Hin as [_ [=]].
    + destruct loading; [by apply elem_of_nil in Hin|].
      apply list_elem_of_bind in Hin as (connection & Hin & _).
      unfold MoneyhashIntegrations.rowActions in Hin.
      apply elem_of_when in Hin as [Hany [= ->]].
      destruct (MoneyhashIntegrations.canEditIntegration hasPermissions),
        (MoneyhashIntegrations.canDeleteIntegration hasPermissions); done.
  - unfold MoneyhashIntegrations.listActions. destruct loading; [done|]. simpl.
    generalize (default [] (MoneyhashIntegrations.connections moneyhash)). intros l.
    unfold MoneyhashIntegrations.rowActions.
    destruct (_ || _); simpl; induction l as [|x l IH]; simpl; try done.
    by rewrite <- IH.
  - intros menu. unfold NetsuiteIntegrations.render.
    intros [[=]|Hin]%elem_of_cons.
    destruct loading; [by apply elem_of_nil in Hin|].
    apply list_elem_of_bind in Hin as (connection & Hin & Hc).
    unfold NetsuiteIntegrations.rowActions in Hin.
    apply list_elem_of_singleton in Hin as [= ->]. eauto.
Qed.

(** X12.  Dialogs opened from the pages.  On the details page both dialogs
    are opened for the fetched provider and always with the page's
    post-delete callback; on the two list pages they are opened for a
    connection of the fetched list, and the edit dialog is handed the
    same post-delete callback as the delete dialog. *)
Theorem dialogs_share_callback (hasPermissions : HasPermissions) (loading : bool)
    (details : option MoneyhashIntegrationDetails.GetMoneyhashIntegrationsDetailsQuery)
    (moneyhash : option MoneyhashIntegrations.GetMoneyhashIntegrationsListQuery)
    (netsuite : option NetsuiteIntegrations.GetNetsuiteIntegrationsListQuery) :
  (∀ c, c ∈ handlers (MoneyhashIntegrationDetails.render hasPermissions details) →
     (∀ args, c = addDialog_openDialog (Some args) →
        add_provider args = details ≫= MoneyhashIntegrationDetails.paymentProvider
        ∧ deleteDialogCallback args
          = Some (MoneyhashIntegrationDetails.deleteDialogCallback details))
     ∧ (∀ args, c = deleteDialog_openDialog args →
          provider args = details ≫= MoneyhashIntegrationDetails.paymentProvider
          ∧ callback args
            = Some (MoneyhashIntegrationDetails.deleteDialogCallback details)))
  ∧ (∀ c, c ∈ handlers (MoneyhashIntegrations.render hasPermissions moneyhash loading) →
       (∀ args, c = addDialog_openDialog (Some args) →
          deleteDialogCallback args = MoneyhashIntegrations.deleteDialogCallback moneyhash
          ∧ ∃ connection,
              add_provider args = Some connection
              ∧ connection ∈ default [] (MoneyhashIntegrations.connections moneyhash))
       ∧ (∀ args, c = deleteDialog_openDialog args →
            ∃ connection,
              provider args = Some connection
              ∧ connection ∈ default [] (MoneyhashIntegrations.connections moneyhash)))
  ∧ (∀ c, c ∈ handlers (NetsuiteIntegrations.render netsuite loading) →
       (∀ args, c = addDialog_openDialog (Some args) →
          deleteDialogCallback args = NetsuiteIntegrations.deleteDialogCallback netsuite
          ∧ ∃ connection,
              add_provider args = Some connection
              ∧ connection ∈ default [] (NetsuiteIntegrations.connections netsuite))
       ∧ (∀ args, c = deleteDialog_openDialog args →
            ∃ connection,
              provider args = Some connection
              ∧ connection ∈ default [] (NetsuiteIntegrations.connections netsuite))).
Proof.
  split; [|split].
  - intros c (e & He & Hc)%elem_of_handlers.
    unfold MoneyhashIntegrationDetails.render in He.
    assert (c = MoneyhashIntegrationDetails.editClick details
            ∨ c = MoneyhashIntegrationDetails.deleteClick details) as [-> | ->].
    { apply elem_of_app in He as [He|He].
      - unfold MoneyhashIntegrationDetails.headerActions in He.
        apply elem_of_when in He as [_ ->].
        apply elem_of_app in Hc as [[_ ?]%elem_of_when|[_ ?]%elem_of_when]; auto.
      - unfold MoneyhashIntegrationDetails.sectionActions in He.
        apply elem_of_when in He as [_ ->]. apply list_elem_of_singleton in Hc. auto. }
    + split; [by intros args [= <-]|by intros args [=]].
    + split; [by intros args [=]|by intros args [= <-]].
  - intros c (e & He & Hc)%elem_of_handlers.
    unfold MoneyhashIntegrations.render in He.
    apply elem_of_app in He as [He|He].
    + unfold MoneyhashIntegrations.headerActions in He.
      apply elem_of_when in He as [_ ->]. apply list_elem_of_singleton in Hc as ->.
      split; by intros args [=].
    + unfold MoneyhashIntegrations.listActions in He.
      destruct loading; [by apply elem_of_nil in He|].
      apply list_elem_of_bind in He as (connection & He & Hconn).
      destruct (moneyhash_row_clicks _ _ _ _ _ He Hc) as [[_ ->]|[_ ->]].
      * split; [intros args [= <-]; simpl; eauto|by intros args [=]].
      * split; [by intros args [=]|intros args [= <-]; simpl; eauto].
  - intros c (e & He & Hc)%elem_of_handlers.
    unfold NetsuiteIntegrations.render in He.
    apply elem_of_cons in He as [->|He].
    + apply list_elem_of_singleton in Hc as ->. split; by intros args [=].
    + destruct loading; [by apply elem_of_nil in He|].
      apply list_elem_of_bind in He as (connection & He & Hconn).
      unfold NetsuiteIntegrations.rowActions in He.
      apply list_elem_of_singleton in He as ->.
      apply elem_of_cons in Hc as [->|Hc];
        [|apply list_elem_of_singleton in Hc as ->].
      * split; [intros args [= <-]; simpl; eauto|by intros args [=]].
      * split; [by intros args [=]|intros args [= <-]; simpl; eauto].
Qed.

End IntegrationMenus.

(** ** Actions on a customer's wallets *)

Section WalletActions.
Import Permissions Ui CustomerWalletsList CustomerWalletsActions.

Lemma activeWallet_Some data w :
  activeWallet data = Some w → w ∈ list_ data ∧ status w = Active.
Proof.
  unfold activeWallet. intros [Hin Hs]%find_some. simpl in Hs.
  split; [by apply list_elem_of_In|]. by destruct (status w).
Qed.

Lemma activeWallet_None data w :
  activeWallet data = None → w ∈ list_ data → status w ≠ Active.
Proof.
  unfold activeWallet. intros Hnone Hin%list_elem_of_In.
  pose proof (find_none _ _ Hnone w Hin) as Hs. simpl in Hs. by destruct (status w).
Qed.

(** X13.  Whatever [hasPermissions] answers: the action area holds a single
    create button or a single menu, never both; creating a wallet is
    offered only while no wallet of the list is active; void and
    terminate are offered together; the void button is enabled only for
    an active wallet with a positive balance, and the wallet acted upon
    is a wallet of the list whose status is active. *)
Theorem wallet_actions (hasPermissions : HasPermissions)
    (data : option GetCustomerWalletListQuery) :
  let shown := customAction hasPermissions data in
  (length shown ≤ 1)%nat
  ∧ (createWallet ∈ handlers shown →
       shown = [Button createWallet]
       ∧ ∀ w, w ∈ list_ data → status w ≠ Active)
  ∧ (voidWallet ∈ handlers shown ↔ terminateWallet ∈ handlers shown)
  ∧ (∀ w, activeWallet data = Some w → w ∈ list_ data ∧ status w = Active)
  ∧ (∀ w, editWalletId data = Some w →
       ∃ wallet, wallet ∈ list_ data ∧ status wallet = Active ∧ walletId wallet = w)
  ∧ (voidDisabled data = false →
       ∃ w, activeWallet data = Some w ∧ (0 < creditsBalance w)%Z)
  ∧ (activeWallet data = None → voidDisabled data = true ∧ editWalletId data = None).
Proof.
  intros shown. unfold shown, customAction.
  split; [|split; [|split; [|split; [|split; [|split]]]]].
  - destruct (hasAnyPermissionsToShowActions hasPermissions); simpl; lia.
  - destruct (hasAnyPermissionsToShowActions hasPermissions); simpl;
      [|by intros ?%elem_of_nil].
    destruct (activeWallet data) as [w|] eqn:Hactive; simpl.
    + destruct (hasPermissions [walletsTopUp]), (hasPermissions [walletsUpdate]),
        (hasPermissions [walletsTerminate]); simpl; intros Hin;
        repeat (apply elem_of_cons in Hin as [[=]|Hin]); by apply elem_of_nil in Hin.
    + destruct (hasPermissions [walletsCreate]); simpl.
      * intros _. split; [done|]. intros w. by apply activeWallet_None.
      * destruct (hasPermissions [walletsTopUp]), (hasPermissions [walletsUpdate]),
          (hasPermissions [walletsTerminate]); simpl; intros Hin;
          repeat (apply elem_of_cons in Hin as [[=]|Hin]); by apply elem_of_nil in Hin.
  - destruct (hasAnyPermissionsToShowActions hasPermissions); simpl;
      [|by split; intros ?%elem_of_nil].
    destruct (negb _ && _); simpl.
    + split; intros Hin; repeat (apply elem_of_cons in Hin as [[=]|Hin]);
        by apply elem_of_nil in Hin.
    + destruct (hasPermissions [walletsTopUp]), (hasPermissions [walletsUpdate]),
        (hasPermissions [walletsTerminate]); simpl; split; intros Hin;
        repeat (apply elem_of_cons in Hin as [[=]|Hin]);
        first [by apply elem_of_nil in Hin
              |rewrite !elem_of_cons; auto 6].
  - intros w. apply activeWallet_Some.
  - unfold editWalletId. intros w.
    destruct (activeWallet data) as [wallet|] eqn:Hactive; [|done].
    intros [= <-]. exists wallet. by destruct (activeWallet_Some _ _ Hactive).
  - unfold voidDisabled. destruct (activeWallet data) as [w|]; simpl.
    + intros Hb%Z.leb_gt. eauto.
    + done.
  - unfold voidDisabled, editWalletId. by intros ->.
Qed.

End WalletActions.

(** ** The taxes shown for a charge *)

Section ChargeTaxes.
Import PlanChargeTaxes.

(** X14.  The taxes entry of a charge always has a value: a dash exactly when
    neither the charge nor the plan has a tax, otherwise a non-empty list
    of lines, which is the charge's own taxes when it has any and the
    plan's taxes only when it has none. *)
Theorem taxesValue_shown (chargeTaxes planTaxes : option (list Tax)) :
  is_Some (taxesValue chargeTaxes planTaxes)
  ∧ (taxesValue chargeTaxes planTaxes = Some Dash
     ↔ (chargeTaxes = None ∨ chargeTaxes = Some [])
       ∧ (planTaxes = None ∨ planTaxes = Some []))
  ∧ (∀ taxes, taxesValue chargeTaxes planTaxes = Some (TaxLines taxes) →
       taxes ≠ []
       ∧ (chargeTaxes = Some taxes
          ∨ ((chargeTaxes = None ∨ chargeTaxes = Some []) ∧ planTaxes = Some taxes))).
Proof.
  unfold taxesValue.
  destruct chargeTaxes as [[|c cs]|], planTaxes as [[|p ps]|]; simpl;
    (split; [by eexists|split]);
    first [ split; [done|]; by intros [[?|?] [?|?]]
          | split; [by auto|done]
          | idtac ];
    try (intros taxes [= <-]; split; [done|]; auto).
  all: by intros taxes [=].
Qed.

End ChargeTaxes.

(** ** The input of a filter *)

Section FilterInputs.
Import FiltersPanelItemTypeSwitch.

(** X15.  Every filter type but [customerAccountType] has an input, no two
    filter types share one and every input serves a filter type; the
    placeholder is shown exactly when no filter type is chosen, and only
    the issuing date gets the other connecting word. *)
Theorem filterTypeMap_one_to_one :
  (∀ a b item, filterTypeMap a = Some item → filterTypeMap b = Some item → a = b)
  ∧ (∀ a, filterTypeMap a = None ↔ a = customerAccountType)
  ∧ (∀ item, ∃ a, filterTypeMap a = Some item)
  ∧ (∀ filterType, render filterType = Placeholder ↔ filterType = None)
  ∧ (∀ a text input, render (Some a) = Labelled text input →
       input = filterTypeMap a
       ∧ (text = "text_66ab42d4ece7e6b7078993e2" ↔ a = issuingDate)).
Proof.
  split; [|split; [|split; [|split]]].
  - intros [] [] item; simpl; congruence.
  - by intros [].
  - intros []; by eexists; first
      [ exact (eq_refl : filterTypeMap currency = _)
      | exact (eq_refl : filterTypeMap customerExternalId = _)
      | exact (eq_refl : filterTypeMap invoiceType = _)
      | exact (eq_refl : filterTypeMap issuingDate = _)
      | exact (eq_refl : filterTypeMap partiallyPaid = _)
      | exact (eq_refl : filterTypeMap paymentDisputeLost = _)
      | exact (eq_refl : filterTypeMap paymentOverdue = _)
      | exact (eq_refl : filterTypeMap paymentStatus = _)
      | exact (eq_refl : filterTypeMap status = _)
      | exact (eq_refl : filterTypeMap invoiceNumber = _)
      | exact (eq_refl : filterTypeMap amount = _)
      | exact (eq_refl : filterTypeMap creditNoteReason = _)
      | exact (eq_refl : filterTypeMap creditNoteCreditStatus = _)
      | exact (eq_refl : filterTypeMap creditNoteRefundStatus = _)
      | exact (eq_refl : filterTypeMap selfBilled = _) ].
  - by intros [a|].
  - intros a text input. unfold render. intros [= <- <-]. split; [done|].
    by destruct a.
Qed.

End FilterInputs.

(** ** Credit-note form: the value recorded for each group *)

Section GroupValues.
Import CreateCreditNote CreateCreditNoteFees.

Lemma childStep_other sgv (entries : Js.Obj FeeEntry) k :
  k ≠ "value" → k ∉ Js.keys entries →
  foldl childStep sgv entries !! k = sgv !! k.
Proof.
  unfold Js.keys. intros Hk. revert sgv.
  induction entries as [|[k0 e0] entries IH]; intros sgv Hnot; [done|].
  rewrite fmap_cons in Hnot. cbn [fst] in Hnot.
  apply not_elem_of_cons in Hnot as [Hne Hnot]. simpl. rewrite IH by done.
  destruct (childChecked e0); simpl.
  - by rewrite lookup_insert_ne.
  - by rewrite !lookup_insert_ne.
Qed.

(** X10.  Besides the subscription's value, [checkboxGroupValue] records the
    value of each group under the group's key: the fold of that group's
    flags, seeded with [null]; direct fees and keys the subscription does
    not hold leave no record.  (Keys are distinct, and the key is not
    [value], which holds the subscription's own value.) *)
Theorem group_values_recorded (sub : SubscriptionFees) (k : string) :
  Js.wf (fees sub) →
  k ≠ "value" →
  (∀ g, (k, Group g) ∈ fees sub →
     subscriptionGroupValuesOf sub !! k
     = Some (foldFlags Null ((λ kv, checked kv.2) <$> grouped g)))
  ∧ (∀ f, (k, Fee f) ∈ fees sub → is_Some (checked f) →
       subscriptionGroupValuesOf sub !! k = None)
  ∧ (k ∉ Js.keys (fees sub) → subscriptionGroupValuesOf sub !! k = None).
Proof.
  intros Hwf Hk. unfold subscriptionGroupValuesOf.
  assert (∀ sgv e, (k, e) ∈ fees sub →
    foldl childStep sgv (fees sub) !! k
    = match childChecked e with
      | Some _ => sgv !! k
      | None => Some (groupValueOf (childGrouped e))
      end) as Hentry.
  { intros sgv e. revert sgv. unfold Js.wf, Js.keys in Hwf.
    induction (fees sub) as [|[k0 e0] entries IH]; intros sgv Hin;
      [by apply elem_of_nil in Hin|].
    rewrite fmap_cons in Hwf. cbn [fst] in Hwf. apply NoDup_cons in Hwf as [Hfresh Hwf].
    apply elem_of_cons in Hin as [[= <- <-]|Hin].
    - simpl. rewrite childStep_other by done.
      destruct (childChecked e); simpl.
      + by rewrite lookup_insert_ne.
      + by rewrite lookup_insert_ne, lookup_insert_eq.
    - simpl. rewrite (IH Hwf _ Hin).
      assert (k0 ≠ k) as Hne.
      { intros ->. destruct Hfresh. by apply (list_elem_of_fmap_2 fst) in Hin. }
      destruct (childChecked e); [|done].
      destruct (childChecked e0); simpl; by rewrite !lookup_insert_ne. }
  split; [|split].
  - intros g Hin. rewrite (Hentry _ _ Hin). simpl. by rewrite groupValueOf_foldFlags.
  - intros f Hin [b Hb]. rewrite (Hentry _ _ Hin). simpl. rewrite Hb.
    by rewrite lookup_singleton_ne.
  - intros Hnot. rewrite childStep_other by done. by rewrite lookup_singleton_ne.
Qed.

Lemma group_values_recorded_witness :
  Js.wf (fees sampleSubscription)
  ∧ subscriptionGroupValuesOf sampleSubscription !! "charge_1" = Some (Bool true).
Proof.
  assert (Js.wf (fees sampleSubscription)) as Hwf
    by (apply (bool_decide_unpack _); by vm_compute).
  split; [done|].
  destruct (group_values_recorded sampleSubscription "charge_1" Hwf) as (Hgroup & _);
    [done|].
  rewrite (Hgroup {| groupName := "Storage";
                     grouped :=
                       [("fee_2", {| feeId := "fee_2"; checked := Some true |});
                        ("fee_3", {| feeId := "fee_3"; checked := Some true |})] |});
    [done|]. right. by left.
Defined.

End GroupValues.
